(** * bigstringaf C stubs: blits and comparisons over raw memory

    Shallow embedding of [ocaml_modules/bigstringaf/lib/bigstringaf_stubs.c].
    The file holds five stubs.  Each one turns two OCaml values and two tagged
    offsets into raw pointers, converts the tagged length to a [size_t] and
    hands the three to [memcpy], [memmove] or [memcmp].

    Memory is a finite map from allocation identifiers to byte lists; a
    pointer is an allocation together with a byte offset.  An access outside
    an allocation, or a [memcpy] whose ranges overlap, has no defined
    behaviour in C and is modelled by the outcome [Undefined].

    The comparison stubs return the [int] of libc's [memcmp] as it is.  ISO C
    fixes the sign of that value and leaves its magnitude to the
    implementation, so the libc is a parameter [lc] of the comparison stubs
    and of every statement about them; the instances at the end of the file
    pick a concrete one. *)

From Stdlib Require Import ZArith Lia.
From Stdlib Require Import Strings.Byte.
From stdpp Require Import base option list gmap.

Local Open Scope Z_scope.

(** ** Machine integers and OCaml values *)

(** An OCaml [value] holding an integer is a 64-bit machine word ([intnat])
    whose low bit is the tag. *)
Definition value := Z.

Definition intnat_bits : Z := 64.

Definition is_intnat (v : Z) : Prop := - 2 ^ 63 <= v < 2 ^ 63.

(** Two's complement wrap-around to [w] bits, signed. *)
Definition wrap_signed (w x : Z) : Z :=
  (x + 2 ^ (w - 1)) mod 2 ^ w - 2 ^ (w - 1).

(** [#define Long_val(x) ((x) >> 1)] *)
Definition Long_val (x : value) : Z := Z.shiftr x 1.

(** [#define Val_long(x) ((intnat) (((uintnat)(x) << 1)) + 1)] *)
Definition Val_long (x : Z) : value := wrap_signed intnat_bits (Z.shiftl x 1 + 1).

(** [#define Val_int(x) Val_long(x)] *)
Definition Val_int (x : Z) : value := Val_long x.

(** [#define Int_val(x) ((int) Long_val(x))] *)
Definition Int_val (x : value) : Z := wrap_signed 32 (Long_val x).

(** [size_t len = Long_val(vlen);] converts a signed word to an unsigned one. *)
Definition size_t_of_intnat (n : Z) : Z := n mod 2 ^ intnat_bits.

(** ** Bytes *)

(** A byte read as [unsigned char]. *)
Definition uchar (b : byte) : Z := Z.of_N (Byte.to_N b).

Definition byte_of_Z (z : Z) : byte :=
  match Byte.of_N (Z.to_N (z mod 256)) with
  | Some b => b
  | None => x00
  end.

(** ** Memory, pointers *)

Record ptr := Ptr { ptr_block : nat; ptr_off : Z }.

(** [(char * )p + n] *)
Definition ptr_add (p : ptr) (n : Z) : ptr :=
  Ptr (ptr_block p) (ptr_off p + n).

Abbreviation memory := (gmap nat (list byte)).

(** The [n] bytes from offset [o] lie inside an allocation of contents [blk]. *)
Definition valid_range (blk : list byte) (o n : Z) : Prop :=
  0 <= o ∧ 0 <= n ∧ o + n <= Z.of_nat (length blk).

#[global] Instance valid_range_dec blk o n : Decision (valid_range blk o n).
Proof. unfold valid_range. apply _. Defined.

Definition read_byte (m : memory) (p : ptr) : option byte :=
  match m !! ptr_block p with
  | Some blk =>
      if decide (0 <= ptr_off p) then blk !! Z.to_nat (ptr_off p) else None
  | None => None
  end.

Definition load_bytes (m : memory) (p : ptr) (n : Z) : option (list byte) :=
  match m !! ptr_block p with
  | Some blk =>
      if decide (valid_range blk (ptr_off p) n)
      then Some (take (Z.to_nat n) (drop (Z.to_nat (ptr_off p)) blk))
      else None
  | None => None
  end.

Definition store_bytes (m : memory) (p : ptr) (bs : list byte) : option memory :=
  match m !! ptr_block p with
  | Some blk =>
      if decide (valid_range blk (ptr_off p) (Z.of_nat (length bs)))
      then Some (<[ptr_block p :=
                    take (Z.to_nat (ptr_off p)) blk ++ bs ++
                    drop (Z.to_nat (ptr_off p) + length bs) blk]> m)
      else None
  | None => None
  end.

Definition block_size (m : memory) (b : nat) : option nat :=
  length <$> m !! b.

(** ** Outcomes of a stub *)

(** Modelled from the spec: the error taxonomy of its section 7.  The C file
    contains no call that raises; the constructors exist so that the
    statements about errors can be written down. *)
Inductive error := OutOfBounds | LengthMismatch.

(** A C stub called from OCaml returns normally with a result and the memory
    it leaves behind, raises an exception through the runtime, or runs into
    undefined behaviour. *)
Inductive outcome (A : Type) :=
| Returns (a : A) (m : memory)
| Raises (e : error) (m : memory)
| Undefined.
Arguments Returns {A} a m.
Arguments Raises {A} e m.
Arguments Undefined {A}.

Definition stub (A : Type) : Type := memory → outcome A.

Definition ret {A} (a : A) : stub A := fun m => Returns a m.

Definition bind {A B} (c : stub A) (k : A → stub B) : stub B :=
  fun m =>
    match c m with
    | Returns a m' => k a m'
    | Raises e m' => Raises e m'
    | Undefined => Undefined
    end.

Notation "'do' x <- c ; k" := (bind c (fun x => k))
  (at level 10, x name, c at level 100, k at level 200).

(** ** libc *)

(** The two [n]-byte ranges share at least one byte. *)
Definition overlap (p q : ptr) (n : Z) : Prop :=
  ptr_block p = ptr_block q ∧ ptr_off p < ptr_off q + n ∧ ptr_off q < ptr_off p + n.

#[global] Instance overlap_dec p q n : Decision (overlap p q n).
Proof. unfold overlap. apply _. Defined.

(** [void *memmove(void *dst, const void *src, size_t n)]: copies as if
    through a temporary array, so the ranges may overlap. *)
Definition memmove (dst src : ptr) (n : Z) : stub ptr :=
  fun m =>
    match load_bytes m src n with
    | Some tmp =>
        match store_bytes m dst tmp with
        | Some m' => Returns dst m'
        | None => Undefined
        end
    | None => Undefined
    end.

(** [void *memcpy(void *dst, const void *src, size_t n)]: as [memmove], but
    the behaviour is undefined when the ranges overlap. *)
Definition memcpy (dst src : ptr) (n : Z) : stub ptr :=
  fun m => if decide (overlap dst src n) then Undefined else memmove dst src n m.

(** The difference, as [unsigned char], of the first pair of bytes that
    differ, 0 when there is none.  Its sign is the sign ISO C prescribes for
    the result of [memcmp]. *)
Fixpoint memcmp_bytes (xs ys : list byte) : Z :=
  match xs, ys with
  | x :: xs', y :: ys' =>
      if decide (uchar x = uchar y) then memcmp_bytes xs' ys' else uchar x - uchar y
  | _, _ => 0
  end.

(** What ISO C leaves to the implementation of [memcmp]: the magnitude of a
    result that is not zero.  It is a positive [int], and an implementation
    may make it depend on the addresses of the two operands and on the bytes
    compared, hence also on their number. *)
Record libc := Libc {
  memcmp_magnitude : ptr → ptr → list byte → list byte → Z;
  memcmp_magnitude_int :
    ∀ s1 s2 xs ys, 0 < memcmp_magnitude s1 s2 xs ys < 2 ^ 31
}.

(** A [memcmp] that compares byte by byte and returns the difference of the
    first two bytes that differ. *)
Definition libc_bytewise : libc.
Proof.
  refine (Libc (fun _ _ xs ys => Z.max 1 (Z.min 255 (Z.abs (memcmp_bytes xs ys)))) _).
  intros _ _ xs ys. lia.
Defined.

(** A [memcmp] that compares word by word, returning 1 or -1, when its first
    operand is aligned on 8 bytes, and byte by byte otherwise.  Allocations
    start on a word boundary, so the alignment of a pointer is that of its
    offset. *)
Definition libc_aligned : libc.
Proof.
  refine (Libc (fun s1 _ xs ys =>
                  if ptr_off s1 mod 8 =? 0 then 1
                  else Z.max 1 (Z.min 255 (Z.abs (memcmp_bytes xs ys)))) _).
  intros s1 _ xs ys. destruct (ptr_off s1 mod 8 =? 0); lia.
Defined.

(** Closing goals about concrete memories by evaluation. *)
Ltac solve_allocated := eexists; split; [reflexivity | by vm_compute].

Ltac solve_no_overlap :=
  let H := fresh in
  intros H; vm_compute in H; destruct H as (? & ? & ?); done.

Ltac solve_disjoint :=
  first [ left; by vm_compute | right; left; by vm_compute | right; right; by vm_compute ].

(** The stubs are linked against some libc: it is a parameter of what
    follows. *)
Section Libc.
Context (lc : libc).

(** The value [memcmp] returns for the bytes [xs] at [s1] and [ys] at [s2]:
    the prescribed sign with the magnitude this libc gives it. *)
Definition memcmp_result (s1 s2 : ptr) (xs ys : list byte) : Z :=
  Z.sgn (memcmp_bytes xs ys) * memcmp_magnitude lc s1 s2 xs ys.

(** [int memcmp(const void *s1, const void *s2, size_t n)] *)
Definition memcmp (s1 s2 : ptr) (n : Z) : stub Z :=
  fun m =>
    match load_bytes m s1 n, load_bytes m s2 n with
    | Some xs, Some ys => Returns (memcmp_result s1 s2 xs ys) m
    | _, _ => Undefined
    end.

(** ** OCaml heap values seen from C *)

(** [struct caml_ba_array] of a one-dimensional char bigarray: the data
    pointer and [dim[0]].  A bigarray made by [Bigarray.Array1.sub] points
    into the allocation of its parent. *)
Record caml_ba_array := BA { ba_data : ptr; ba_dim : Z }.

(** [#define Caml_ba_data_val(v) (Caml_ba_array_val(v)->data)] *)
Definition Caml_ba_data_val (v : caml_ba_array) : ptr := ba_data v.

(** An OCaml [bytes] or [string]: the value is the address of its first byte,
    the length sits in the block header. *)
Record caml_string := Str { str_addr : ptr; str_length : Z }.

(** [#define String_val(x) ((const char * ) Bp_val(x))] *)
Definition String_val (v : caml_string) : ptr := str_addr v.

(** ** The stubs *)

Definition bigstringaf_blit_to_bytes
    (vsrc : caml_ba_array) (vsrc_off : value)
    (vdst : caml_string) (vdst_off : value) (vlen : value) : stub unit :=
  let src := ptr_add (Caml_ba_data_val vsrc) (Long_val vsrc_off) in
  let dst := ptr_add (String_val vdst) (Long_val vdst_off) in
  let len := size_t_of_intnat (Long_val vlen) in
  do _ <- memcpy dst src len; ret tt.

Definition bigstringaf_blit_to_bigstring
    (vsrc : caml_ba_array) (vsrc_off : value)
    (vdst : caml_ba_array) (vdst_off : value) (vlen : value) : stub unit :=
  let src := ptr_add (Caml_ba_data_val vsrc) (Long_val vsrc_off) in
  let dst := ptr_add (Caml_ba_data_val vdst) (Long_val vdst_off) in
  let len := size_t_of_intnat (Long_val vlen) in
  do _ <- memmove dst src len; ret tt.

Definition bigstringaf_blit_from_bytes
    (vsrc : caml_string) (vsrc_off : value)
    (vdst : caml_ba_array) (vdst_off : value) (vlen : value) : stub unit :=
  let src := ptr_add (String_val vsrc) (Long_val vsrc_off) in
  let dst := ptr_add (Caml_ba_data_val vdst) (Long_val vdst_off) in
  let len := size_t_of_intnat (Long_val vlen) in
  do _ <- memcpy dst src len; ret tt.

Definition bigstringaf_memcmp_bigstring
    (vba1 : caml_ba_array) (vba1_off : value)
    (vba2 : caml_ba_array) (vba2_off : value) (vlen : value) : stub value :=
  let ba1 := ptr_add (Caml_ba_data_val vba1) (Long_val vba1_off) in
  let ba2 := ptr_add (Caml_ba_data_val vba2) (Long_val vba2_off) in
  let len := size_t_of_intnat (Long_val vlen) in
  do result <- memcmp ba1 ba2 len; ret (Val_int result).

Definition bigstringaf_memcmp_string
    (vba : caml_ba_array) (vba_off : value)
    (vstr : caml_string) (vstr_off : value) (vlen : value) : stub value :=
  let buf1 := ptr_add (Caml_ba_data_val vba) (Long_val vba_off) in
  let buf2 := ptr_add (String_val vstr) (Long_val vstr_off) in
  let len := size_t_of_intnat (Long_val vlen) in
  do result <- memcmp buf1 buf2 len; ret (Val_int result).

(** ** Well-formed operands *)

(** The [n] bytes at [p] lie inside an allocation of [m]. *)
Definition allocated (m : memory) (p : ptr) (n : Z) : Prop :=
  ∃ blk, m !! ptr_block p = Some blk ∧ valid_range blk (ptr_off p) n.

(** The region of a bigarray, [ba_dim] bytes from [ba_data], lies inside an
    allocation of [m]. *)
Definition valid_ba (m : memory) (ba : caml_ba_array) : Prop :=
  allocated m (ba_data ba) (ba_dim ba).

Definition valid_str (m : memory) (s : caml_string) : Prop :=
  allocated m (str_addr s) (str_length s).

(** A view: [len] bytes from [off] within a region of [cap] bytes. *)
Definition in_bounds (cap off len : Z) : Prop :=
  0 <= off ∧ 0 <= len ∧ off + len <= cap.

(** The bytes of a whole region. *)
Definition ba_bytes (m : memory) (ba : caml_ba_array) : option (list byte) :=
  load_bytes m (ba_data ba) (ba_dim ba).

Definition str_bytes (m : memory) (s : caml_string) : option (list byte) :=
  load_bytes m (str_addr s) (str_length s).

(** ** Concrete memories used in the examples *)

(** One allocation, number 0, holding the bytes 0..9. *)
Definition mem10 : memory :=
  {[ 0%nat := map byte_of_Z [0; 1; 2; 3; 4; 5; 6; 7; 8; 9] ]}.

Definition region10 : caml_ba_array := BA (Ptr 0 0) 10.

(** The first four bytes of [region10] as a bigarray of their own, as
    [Bigarray.Array1.sub region10 0 4] builds it: same data pointer, its own
    dimension. *)
Definition sub4 : caml_ba_array := BA (Ptr 0 0) 4.

(** Three allocations: bigarrays holding 1,2,3 and 1,2,4 and a second one
    holding 1,2,3. *)
Definition mem_cmp : memory :=
  {[ 0%nat := map byte_of_Z [1; 2; 3];
     1%nat := map byte_of_Z [1; 2; 4];
     2%nat := map byte_of_Z [1; 2; 3] ]}.

Definition ba123 : caml_ba_array := BA (Ptr 0 0) 3.
Definition ba124 : caml_ba_array := BA (Ptr 1 0) 3.
Definition ba123' : caml_ba_array := BA (Ptr 2 0) 3.

(** A bigarray of five bytes in allocation 0, an OCaml string of three bytes
    in allocation 1 and one of four bytes in allocation 2.  A string block is
    a whole number of words: the bytes of the string, then the padding the
    runtime puts after them. *)
Definition mem_str : memory :=
  {[ 0%nat := map byte_of_Z [1; 2; 3; 9; 9];
     1%nat := map byte_of_Z [1; 2; 4; 0; 0; 0; 0; 4];
     2%nat := map byte_of_Z [7; 7; 7; 7; 0; 0; 0; 3] ]}.

Definition ba5 : caml_ba_array := BA (Ptr 0 0) 5.
Definition str3 : caml_string := Str (Ptr 1 0) 3.
Definition out4 : caml_string := Str (Ptr 2 0) 4.

(** The first two bytes of [ba5] as a bigarray of their own. *)
Definition sub2 : caml_ba_array := BA (Ptr 0 0) 2.








(** Modelled from the spec: a view is a region with an offset and a length
    (section 3).  The stubs take no such triple: they receive the two offsets
    and one length shared by both operands. *)
Record view := View { view_region : caml_ba_array; view_off : Z; view_len : Z }.

(** Two views of [region10] of different lengths. *)
Definition view_a : view := View region10 0 3.
Definition view_b : view := View region10 5 2.

(** The lexicographic contract on a result [r]: zero on equal contents, the
    sign of the first differing pair of bytes, read as unsigned, otherwise. *)
Definition lexicographic (xs ys : list byte) (r : Z) : Prop :=
  (xs = ys → r = 0)
  ∧ ∀ (i : nat) (x y : byte),
      take i xs = take i ys → xs !! i = Some x → ys !! i = Some y → x ≠ y →
      (uchar x < uchar y ∧ r < 0) ∨ (uchar y < uchar x ∧ 0 < r).

(** What a copy leaves alone: every byte outside the [n] bytes at [p], and the
    size of every allocation. *)
Definition unchanged_outside (m m' : memory) (p : ptr) (n : Z) : Prop :=
  (∀ q : ptr,
      ¬ (ptr_block q = ptr_block p ∧ ptr_off p <= ptr_off q < ptr_off p + n) →
      read_byte m' q = read_byte m q)
  ∧ ∀ b : nat, block_size m' b = block_size m b.

(** A bigarray whose data pointer is the address of the bytes of [str3]. *)
Definition ba_alias : caml_ba_array := BA (Ptr 1 0) 3.

(** The memories left by three copies that go past the capacity of their
    destination: four bytes from offset 6 of [region10] to offset 2 of
    [sub4]; four bytes from [ba5] to offset 2 of [str3]; three bytes from
    [str3] to offset 1 of [sub2]. *)
Definition mem10_past_sub4 : memory :=
  {[ 0%nat := map byte_of_Z [0; 1; 6; 7; 8; 9; 6; 7; 8; 9] ]}.

Definition mem_str_past_str3 : memory :=
  <[ 1%nat := map byte_of_Z [1; 2; 1; 2; 3; 9; 0; 4] ]> mem_str.

Definition mem_str_past_sub2 : memory :=
  <[ 0%nat := map byte_of_Z [1; 1; 2; 4; 9] ]> mem_str.

(** The [n] bytes at [p] and the [k] bytes at [q] have no byte in common. *)
Definition ranges_disjoint (p : ptr) (n : Z) (q : ptr) (k : Z) : Prop :=
  ptr_block p ≠ ptr_block q ∨ ptr_off p + n <= ptr_off q ∨ ptr_off q + k <= ptr_off p.

(** No allocation reaches half of the address space: what [malloc] and the
    OCaml heap guarantee on a 64-bit machine. *)
Definition small_allocations (m : memory) : Prop :=
  ∀ (b : nat) (sz : nat), block_size m b = Some sz → Z.of_nat sz < 2 ^ 63.

(** * Machine arithmetic *)

Lemma Long_val_div2 v : Long_val v = v / 2.
Proof. unfold Long_val. now rewrite Z.shiftr_div_pow2 by lia. Qed.

Lemma size_t_of_Long_val v :
  is_intnat v → 0 <= Long_val v → size_t_of_intnat (Long_val v) = Long_val v.
Proof.
  unfold is_intnat, size_t_of_intnat, intnat_bits. rewrite Long_val_div2.
  intros Hv Hpos. apply Z.mod_small. split; [done|].
  apply Z.div_lt_upper_bound; lia.
Qed.

Lemma wrap_signed_small w x :
  0 < w → - 2 ^ (w - 1) <= x < 2 ^ (w - 1) → wrap_signed w x = x.
Proof.
  intros Hw Hx. unfold wrap_signed.
  assert (2 ^ w = 2 * 2 ^ (w - 1)) as Hp.
  { replace w with (Z.succ (w - 1)) at 1 by lia. apply Z.pow_succ_r. lia. }
  rewrite Z.mod_small; lia.
Qed.

Lemma Long_val_Val_long n :
  - 2 ^ 62 <= n < 2 ^ 62 → Long_val (Val_long n) = n ∧ is_intnat (Val_long n).
Proof.
  intros Hn. unfold Val_long, intnat_bits.
  rewrite Z.shiftl_mul_pow2 by lia.
  rewrite wrap_signed_small by (simpl; lia).
  split.
  - rewrite Long_val_div2. change (2 ^ 1) with 2.
    symmetry. apply Z.div_unique with 1; lia.
  - unfold is_intnat. lia.
Qed.

Lemma Int_val_Val_int r : - 2 ^ 31 <= r < 2 ^ 31 → Int_val (Val_int r) = r.
Proof.
  intros Hr. unfold Int_val, Val_int.
  destruct (Long_val_Val_long r) as [-> _]; [lia|].
  apply wrap_signed_small; simpl; lia.
Qed.

Lemma uchar_range b : 0 <= uchar b < 256.
Proof. unfold uchar. pose proof (Byte.to_N_bounded b). lia. Qed.

Lemma uchar_inj a b : uchar a = uchar b → a = b.
Proof.
  unfold uchar. intros H. apply N2Z.inj in H.
  pose proof (Byte.of_to_N a) as Ha. rewrite H, Byte.of_to_N in Ha. congruence.
Qed.

Lemma memcmp_bytes_range xs ys : - 255 <= memcmp_bytes xs ys <= 255.
Proof.
  revert ys. induction xs as [|x xs IH]; intros [|y ys]; simpl; try lia.
  pose proof (uchar_range x). pose proof (uchar_range y).
  case_decide; [apply IH | lia].
Qed.

(** * Loads and stores *)

Lemma load_bytes_Some m p n bs :
  load_bytes m p n = Some bs ↔
  ∃ blk, m !! ptr_block p = Some blk ∧ valid_range blk (ptr_off p) n
         ∧ bs = take (Z.to_nat n) (drop (Z.to_nat (ptr_off p)) blk).
Proof.
  unfold load_bytes. destruct (m !! ptr_block p) as [blk|].
  - case_decide as Hv; split.
    + intros [= <-]. by exists blk.
    + intros (? & [= <-] & _ & ->). done.
    + done.
    + intros (? & [= <-] & ? & _). done.
  - split; [done|]. intros (? & ? & _). done.
Qed.

Lemma store_bytes_Some m p bs m' :
  store_bytes m p bs = Some m' ↔
  ∃ blk, m !! ptr_block p = Some blk
         ∧ valid_range blk (ptr_off p) (Z.of_nat (length bs))
         ∧ m' = <[ptr_block p :=
                   take (Z.to_nat (ptr_off p)) blk ++ bs ++
                   drop (Z.to_nat (ptr_off p) + length bs) blk]> m.
Proof.
  unfold store_bytes. destruct (m !! ptr_block p) as [blk|].
  - case_decide as Hv; split.
    + intros [= <-]. by exists blk.
    + intros (? & [= <-] & _ & ->). done.
    + done.
    + intros (? & [= <-] & ? & _). done.
  - split; [done|]. intros (? & ? & _). done.
Qed.

Lemma allocated_block_size m p n :
  allocated m p n ↔
  ∃ sz, block_size m (ptr_block p) = Some sz
        ∧ 0 <= ptr_off p ∧ 0 <= n ∧ ptr_off p + n <= Z.of_nat sz.
Proof.
  unfold allocated, block_size, valid_range. split.
  - intros (blk & -> & ?). exists (length blk). done.
  - intros (sz & Hsz & ?). destruct (m !! ptr_block p) as [blk|]; [|done].
    exists blk. simpl in Hsz. split; [done|]. congruence.
Qed.

Lemma allocated_load m p n : allocated m p n ↔ is_Some (load_bytes m p n).
Proof.
  split.
  - intros (blk & Hb & Hv). eexists. apply load_bytes_Some. eauto.
  - intros [bs (blk & Hb & Hv & _)%load_bytes_Some]. exists blk. done.
Qed.

Lemma allocated_store m p bs :
  allocated m p (Z.of_nat (length bs)) ↔ is_Some (store_bytes m p bs).
Proof.
  split.
  - intros (blk & Hb & Hv). eexists. apply store_bytes_Some. eauto.
  - intros [m' (blk & Hb & Hv & _)%store_bytes_Some]. exists blk. done.
Qed.

Lemma allocated_sub m p cap off len :
  allocated m p cap → in_bounds cap off len → allocated m (ptr_add p off) len.
Proof.
  intros (blk & Hb & Hv) Hin. exists blk. split; [done|].
  unfold valid_range, in_bounds in *. simpl. lia.
Qed.

Lemma load_bytes_length m p n bs :
  load_bytes m p n = Some bs → Z.of_nat (length bs) = n.
Proof.
  intros (blk & Hb & (H0 & Hn & Hle) & ->)%load_bytes_Some.
  rewrite length_take, length_drop. lia.
Qed.

Lemma load_bytes_lookup m p n bs i :
  load_bytes m p n = Some bs → 0 <= i < n →
  read_byte m (ptr_add p i) = bs !! Z.to_nat i.
Proof.
  intros (blk & Hb & (H0 & Hn & Hle) & ->)%load_bytes_Some Hi.
  unfold read_byte, ptr_add; simpl. rewrite Hb.
  rewrite decide_True by lia.
  rewrite lookup_take_lt by lia. rewrite lookup_drop. f_equal. lia.
Qed.

Lemma load_bytes_ext m1 m2 p n xs ys :
  load_bytes m1 p n = Some xs → load_bytes m2 p n = Some ys →
  (∀ i, 0 <= i < n → read_byte m1 (ptr_add p i) = read_byte m2 (ptr_add p i)) →
  xs = ys.
Proof.
  intros H1 H2 Hext. apply list_eq. intros k.
  pose proof (load_bytes_length _ _ _ _ H1) as L1.
  pose proof (load_bytes_length _ _ _ _ H2) as L2.
  destruct (decide (Z.of_nat k < n)).
  - rewrite <- (Nat2Z.id k).
    rewrite <- (load_bytes_lookup _ _ _ _ _ H1), <- (load_bytes_lookup _ _ _ _ _ H2) by lia.
    apply Hext; lia.
  - rewrite !lookup_ge_None_2; [done| lia | lia].
Qed.

(** Reading one byte after a store: the stored byte inside the written range,
    the old byte everywhere else. *)
Lemma store_bytes_read m p bs m' q :
  store_bytes m p bs = Some m' →
  read_byte m' q =
    if decide (ptr_block q = ptr_block p
               ∧ ptr_off p <= ptr_off q < ptr_off p + Z.of_nat (length bs))
    then bs !! Z.to_nat (ptr_off q - ptr_off p)
    else read_byte m q.
Proof.
  intros (blk & Hb & (H0 & _ & Hle) & ->)%store_bytes_Some.
  unfold read_byte.
  destruct (decide (ptr_block q = ptr_block p
                    ∧ ptr_off p <= ptr_off q < ptr_off p + Z.of_nat (length bs)))
    as [[Heq Hin]|Hout].
  - rewrite Heq, lookup_insert_eq.
    rewrite decide_True by lia.
    rewrite lookup_app_r by (rewrite length_take; lia).
    rewrite length_take. rewrite lookup_app_l by lia. f_equal; lia.
  - destruct (decide (ptr_block q = ptr_block p)) as [Heq|Hne].
    + rewrite Heq, lookup_insert_eq, Hb.
      destruct (decide (0 <= ptr_off q)); [|done].
      destruct (decide (ptr_off q < ptr_off p)).
      * rewrite lookup_app_l by (rewrite length_take; lia).
        rewrite lookup_take_lt by lia. done.
      * rewrite lookup_app_r by (rewrite length_take; lia).
        rewrite length_take.
        rewrite lookup_app_r by lia.
        rewrite lookup_drop. f_equal. lia.
    + by rewrite lookup_insert_ne.
Qed.

Lemma store_bytes_block_size m p bs m' b :
  store_bytes m p bs = Some m' → block_size m' b = block_size m b.
Proof.
  intros (blk & Hb & (H0 & _ & Hle) & ->)%store_bytes_Some. unfold block_size.
  destruct (decide (ptr_block p = b)) as [<-|Hne].
  - rewrite lookup_insert_eq, Hb. simpl. f_equal.
    rewrite !length_app, length_take, length_drop. lia.
  - by rewrite lookup_insert_ne.
Qed.

Lemma store_bytes_allocated m p bs m' q n :
  store_bytes m p bs = Some m' → allocated m' q n ↔ allocated m q n.
Proof.
  intros Hst. rewrite !allocated_block_size.
  by rewrite (store_bytes_block_size _ _ _ _ _ Hst).
Qed.

Lemma load_store_same m p bs m' :
  store_bytes m p bs = Some m' → load_bytes m' p (Z.of_nat (length bs)) = Some bs.
Proof.
  intros (blk & Hb & (H0 & Hn & Hle) & ->)%store_bytes_Some.
  apply load_bytes_Some. eexists. split; [apply lookup_insert_eq|].
  split.
  - unfold valid_range. rewrite !length_app, length_take, length_drop. lia.
  - rewrite drop_app_length' by (rewrite length_take; lia).
    rewrite take_app_length' by lia. done.
Qed.

(** A load that stays clear of the written range sees the old bytes. *)
Lemma load_store_other m p bs m' q n :
  store_bytes m p bs = Some m' →
  ptr_block q ≠ ptr_block p ∨ ptr_off q + n <= ptr_off p
    ∨ ptr_off p + Z.of_nat (length bs) <= ptr_off q →
  load_bytes m' q n = load_bytes m q n.
Proof.
  intros Hst Hdisj.
  destruct (load_bytes m q n) as [xs|] eqn:Hm.
  - assert (is_Some (load_bytes m' q n)) as [ys Hm'].
    { apply allocated_load, (store_bytes_allocated _ _ _ _ _ _ Hst), allocated_load. eauto. }
    rewrite Hm'. f_equal. eapply load_bytes_ext; [done..|].
    intros i Hi. rewrite (store_bytes_read _ _ _ _ _ Hst).
    rewrite decide_False; [done|]. simpl. lia.
  - destruct (load_bytes m' q n) as [ys|] eqn:Hm'; [|done].
    assert (is_Some (load_bytes m q n)) as [? ?]; [|congruence].
    apply allocated_load, (store_bytes_allocated _ _ _ _ _ _ Hst), allocated_load. eauto.
Qed.

(** Storing nothing changes nothing. *)
Lemma store_bytes_nil m p m' : store_bytes m p [] = Some m' → m' = m.
Proof.
  intros (blk & Hb & (H0 & _ & Hle) & ->)%store_bytes_Some.
  apply insert_id. rewrite Hb. f_equal. simpl.
  rewrite Nat.add_0_r. by rewrite take_drop.
Qed.

(** * More on loads and stores *)

Lemma ptr_add_0 p : ptr_add p 0 = p.
Proof. destruct p as [b o]. unfold ptr_add. simpl. f_equal. lia. Qed.

Lemma ptr_add_add p a b : ptr_add (ptr_add p a) b = ptr_add p (a + b).
Proof. unfold ptr_add. simpl. f_equal. lia. Qed.

Lemma store_load_id m p n bs :
  load_bytes m p n = Some bs → store_bytes m p bs = Some m.
Proof.
  intros Hld. pose proof (load_bytes_length _ _ _ _ Hld) as Hlen.
  apply load_bytes_Some in Hld as (blk & Hb & (H0 & Hn & Hle) & Hbs).
  apply store_bytes_Some. exists blk. split; [done|]. split.
  { unfold valid_range. lia. }
  symmetry. apply insert_id. rewrite Hb. f_equal.
  replace (Z.to_nat (ptr_off p) + length bs)%nat
    with (Z.to_nat (ptr_off p) + Z.to_nat n)%nat by lia.
  rewrite <- drop_drop. rewrite Hbs, take_drop. by rewrite take_drop.
Qed.

Lemma store_store_same m p bs m' :
  store_bytes m p bs = Some m' → store_bytes m' p bs = Some m'.
Proof. intros Hst. eapply store_load_id. by eapply load_store_same. Qed.

Lemma load_bytes_take m p n k xs :
  load_bytes m p n = Some xs → 0 <= k <= n →
  load_bytes m p k = Some (take (Z.to_nat k) xs).
Proof.
  intros (blk & Hb & (H0 & Hn & Hle) & ->)%load_bytes_Some Hk.
  apply load_bytes_Some. exists blk. split; [done|]. split.
  { unfold valid_range. lia. }
  rewrite take_take. f_equal. lia.
Qed.

Lemma load_bytes_app m p n1 n2 xs ys :
  load_bytes m p n1 = Some xs → load_bytes m (ptr_add p n1) n2 = Some ys →
  load_bytes m p (n1 + n2) = Some (xs ++ ys).
Proof.
  intros (blk & Hb & (H0 & Hn1 & Hle1) & ->)%load_bytes_Some.
  intros (blk' & Hb' & (H0' & Hn2 & Hle2) & ->)%load_bytes_Some.
  simpl in *. rewrite Hb in Hb'. injection Hb' as <-.
  apply load_bytes_Some. exists blk. split; [done|]. split.
  { unfold valid_range. lia. }
  replace (Z.to_nat (n1 + n2)) with (Z.to_nat n1 + Z.to_nat n2)%nat by lia.
  rewrite <- take_take_drop. do 2 f_equal. rewrite drop_drop. f_equal. lia.
Qed.

Lemma store_bytes_app m p xs ys m1 m2 :
  store_bytes m p xs = Some m1 →
  store_bytes m1 (ptr_add p (Z.of_nat (length xs))) ys = Some m2 →
  store_bytes m p (xs ++ ys) = Some m2.
Proof.
  intros (blk & Hb & (H0 & _ & Hle1) & ->)%store_bytes_Some.
  intros (blk1 & Hb1 & (_ & _ & Hle2) & ->)%store_bytes_Some.
  simpl in *. rewrite lookup_insert_eq in Hb1. injection Hb1 as <-.
  rewrite !length_app, length_take, length_drop in Hle2.
  apply store_bytes_Some. exists blk. split; [done|]. split.
  { unfold valid_range. rewrite length_app. lia. }
  rewrite insert_insert_eq. f_equal.
  set (o := Z.to_nat (ptr_off p)).
  replace (Z.to_nat (ptr_off p + Z.of_nat (length xs))) with (o + length xs)%nat by lia.
  assert (length (take o blk) = o) as Ho by (rewrite length_take; lia).
  rewrite (app_assoc (take o blk) xs).
  rewrite take_app_length' by (rewrite length_app; lia).
  rewrite <- !app_assoc. do 3 f_equal.
  rewrite (app_assoc (take o blk) xs).
  rewrite drop_app_ge by (rewrite length_app; lia).
  rewrite length_app, Ho, drop_drop, length_app. f_equal. lia.
Qed.

Lemma no_overlap_disjoint p q n :
  ¬ overlap p q n → ranges_disjoint q n p n.
Proof.
  unfold overlap, ranges_disjoint. intros Hno.
  destruct (decide (ptr_block q = ptr_block p)) as [Heq|Hne]; [|by left].
  right. destruct (decide (ptr_off q + n <= ptr_off p)); [by left|].
  right. destruct (decide (ptr_off p + n <= ptr_off q)); [done|].
  exfalso. apply Hno. split; [done|]. lia.
Qed.

Lemma load_store_disjoint m p bs m' q n :
  store_bytes m p bs = Some m' →
  ranges_disjoint q n p (Z.of_nat (length bs)) →
  load_bytes m' q n = load_bytes m q n.
Proof. intros Hst Hd. by eapply load_store_other. Qed.



(** * The libc calls on allocated ranges *)

Lemma memmove_ok m dst src n :
  allocated m src n → allocated m dst n →
  ∃ bs m', load_bytes m src n = Some bs ∧ store_bytes m dst bs = Some m'
           ∧ memmove dst src n m = Returns dst m'.
Proof.
  intros [bs Hld]%allocated_load Hdst.
  pose proof (load_bytes_length _ _ _ _ Hld) as Hlen.
  rewrite <- Hlen in Hdst. apply allocated_store in Hdst as [m' Hst].
  exists bs, m'. unfold memmove. by rewrite Hld, Hst.
Qed.

Lemma memcpy_ok m dst src n :
  allocated m src n → allocated m dst n → ¬ overlap dst src n →
  ∃ bs m', load_bytes m src n = Some bs ∧ store_bytes m dst bs = Some m'
           ∧ memcpy dst src n m = Returns dst m'.
Proof.
  intros Hs Hd Hno. unfold memcpy. rewrite decide_False by done.
  by apply memmove_ok.
Qed.

Lemma memcmp_ok m s1 s2 n :
  allocated m s1 n → allocated m s2 n →
  ∃ xs ys, load_bytes m s1 n = Some xs ∧ load_bytes m s2 n = Some ys
           ∧ memcmp s1 s2 n m = Returns (memcmp_result s1 s2 xs ys) m.
Proof.
  intros [xs Hx]%allocated_load [ys Hy]%allocated_load.
  exists xs, ys. unfold memcmp. by rewrite Hx, Hy.
Qed.

Lemma memcmp_inv m s1 s2 n r m' :
  memcmp s1 s2 n m = Returns r m' →
  m' = m ∧ ∃ xs ys, load_bytes m s1 n = Some xs ∧ load_bytes m s2 n = Some ys
                    ∧ r = memcmp_result s1 s2 xs ys.
Proof.
  unfold memcmp. destruct (load_bytes m s1 n) as [xs|]; [|done].
  destruct (load_bytes m s2 n) as [ys|]; [|done].
  intros [= <- <-]. eauto 6.
Qed.

(** * Overlapping blit between bigstrings *)

(** C1. [bigstringaf_blit_to_bigstring] has move semantics.  For valid source
    and destination regions, which may be the same region or overlap, and
    in-bounds views of the same length, the call returns and the destination
    range then holds the bytes the source range held before the call.  On a
    region of capacity 10 holding 0..9, copying offset 0 to offset 2 with
    length 6 leaves 0,1,0,1,2,3,4,5 in positions 0..7. *)
Theorem blit_to_bigstring_move_semantics :
  (∀ (m : memory) (src dst : caml_ba_array) (vsrc_off vdst_off vlen : value),
      valid_ba m src → valid_ba m dst → is_intnat vlen →
      in_bounds (ba_dim src) (Long_val vsrc_off) (Long_val vlen) →
      in_bounds (ba_dim dst) (Long_val vdst_off) (Long_val vlen) →
      ∃ bs m',
        load_bytes m (ptr_add (ba_data src) (Long_val vsrc_off)) (Long_val vlen) = Some bs
        ∧ bigstringaf_blit_to_bigstring src vsrc_off dst vdst_off vlen m = Returns tt m'
        ∧ load_bytes m' (ptr_add (ba_data dst) (Long_val vdst_off)) (Long_val vlen) = Some bs)
  ∧ (∃ m',
        bigstringaf_blit_to_bigstring region10 (Val_long 0) region10 (Val_long 2)
          (Val_long 6) mem10 = Returns tt m'
        ∧ load_bytes m' (ptr_add (ba_data region10) 0) 8
          = Some (map byte_of_Z [0; 1; 0; 1; 2; 3; 4; 5])).
Proof.
  split.
  - intros m src dst vsrc_off vdst_off vlen Hsrc Hdst Hw Hs Hd.
    unfold bigstringaf_blit_to_bigstring, bind, ret, Caml_ba_data_val.
    rewrite size_t_of_Long_val by (done || apply Hs).
    destruct (memmove_ok m (ptr_add (ba_data dst) (Long_val vdst_off))
                (ptr_add (ba_data src) (Long_val vsrc_off)) (Long_val vlen))
      as (bs & m' & Hld & Hst & ->).
    { by eapply allocated_sub. }
    { by eapply allocated_sub. }
    exists bs, m'. split; [done|]. split; [done|].
    rewrite <- (load_bytes_length _ _ _ _ Hld). by eapply load_store_same.
  - eexists. split; vm_compute; reflexivity.
Qed.

Lemma valid_region10 : valid_ba mem10 region10.
Proof.
  exists (map byte_of_Z [0; 1; 2; 3; 4; 5; 6; 7; 8; 9]).
  split; [reflexivity|]. unfold valid_range. cbn. lia.
Qed.

Lemma blit_to_bigstring_move_semantics_witness :
  ∃ bs m',
    load_bytes mem10 (ptr_add (ba_data region10) (Long_val (Val_long 0)))
      (Long_val (Val_long 6)) = Some bs
    ∧ bigstringaf_blit_to_bigstring region10 (Val_long 0) region10 (Val_long 2)
        (Val_long 6) mem10 = Returns tt m'
    ∧ load_bytes m' (ptr_add (ba_data region10) (Long_val (Val_long 2)))
        (Long_val (Val_long 6)) = Some bs.
Proof.
  apply (proj1 blit_to_bigstring_move_semantics mem10 region10 region10
           (Val_long 0) (Val_long 2) (Val_long 6)).
  - apply valid_region10.
  - apply valid_region10.
  - by vm_compute.
  - by vm_compute.
  - by vm_compute.
Defined.

(** * Byte-wise comparison *)

Lemma memcmp_bytes_refl xs : memcmp_bytes xs xs = 0.
Proof. induction xs as [|x xs IH]; simpl; [done|]. by rewrite decide_True. Qed.


Lemma memcmp_bytes_first_diff xs ys i x y :
  take i xs = take i ys → xs !! i = Some x → ys !! i = Some y →
  memcmp_bytes xs ys = if decide (uchar x = uchar y)
                       then memcmp_bytes (drop (S i) xs) (drop (S i) ys)
                       else uchar x - uchar y.
Proof.
  revert xs ys. induction i as [|i IH]; intros [|a xs] [|b ys]; simpl; try done.
  - intros _ [= ->] [= ->]. done.
  - intros [= -> Htk] Hx Hy. rewrite decide_True by done. by apply IH.
Qed.

Lemma memcmp_bytes_lexicographic xs ys : lexicographic xs ys (memcmp_bytes xs ys).
Proof.
  split.
  - intros ->. apply memcmp_bytes_refl.
  - intros i x y Htk Hx Hy Hne.
    rewrite (memcmp_bytes_first_diff _ _ _ _ _ Htk Hx Hy).
    rewrite decide_False by (intros ?%uchar_inj; done).
    assert (uchar x ≠ uchar y) by (intros ?%uchar_inj; done). lia.
Qed.

(** The result of [memcmp] has the sign of [memcmp_bytes] and is an [int]. *)
Lemma memcmp_result_cases s1 s2 xs ys :
  (memcmp_bytes xs ys = 0 ∧ memcmp_result s1 s2 xs ys = 0)
  ∨ (memcmp_bytes xs ys < 0 ∧ - 2 ^ 31 < memcmp_result s1 s2 xs ys < 0)
  ∨ (0 < memcmp_bytes xs ys ∧ 0 < memcmp_result s1 s2 xs ys < 2 ^ 31).
Proof.
  unfold memcmp_result. pose proof (memcmp_magnitude_int lc s1 s2 xs ys) as Hm.
  destruct (memcmp_bytes xs ys) as [|p|p]; simpl Z.sgn; lia.
Qed.

Lemma memcmp_result_sgn s1 s2 xs ys :
  Z.sgn (memcmp_result s1 s2 xs ys) = Z.sgn (memcmp_bytes xs ys).
Proof.
  destruct (memcmp_result_cases s1 s2 xs ys) as [[H1 H2]|[[H1 H2]|[H1 H2]]].
  - by rewrite H1, H2.
  - rewrite !Z.sgn_neg; lia.
  - rewrite !Z.sgn_pos; lia.
Qed.

Lemma memcmp_result_lexicographic s1 s2 xs ys :
  lexicographic xs ys (memcmp_result s1 s2 xs ys).
Proof.
  destruct (memcmp_bytes_lexicographic xs ys) as [Heq Hdiff].
  pose proof (memcmp_result_cases s1 s2 xs ys) as Hc.
  split.
  - intros E. specialize (Heq E). lia.
  - intros i x y Htk Hx Hy Hne. specialize (Hdiff i x y Htk Hx Hy Hne). lia.
Qed.

Lemma memcmp_result_zero s1 s2 xs ys :
  memcmp_result s1 s2 xs ys = 0 ↔ memcmp_bytes xs ys = 0.
Proof. pose proof (memcmp_result_cases s1 s2 xs ys). lia. Qed.

Lemma memcmp_result_refl s1 s2 xs : memcmp_result s1 s2 xs xs = 0.
Proof. apply memcmp_result_zero, memcmp_bytes_refl. Qed.

Lemma Int_val_memcmp_result s1 s2 xs ys :
  Int_val (Val_int (memcmp_result s1 s2 xs ys)) = memcmp_result s1 s2 xs ys.
Proof.
  apply Int_val_Val_int. pose proof (memcmp_result_cases s1 s2 xs ys). lia.
Qed.

(** * Running the stubs on allocated ranges *)

Ltac unfold_stub :=
  unfold bigstringaf_blit_to_bytes, bigstringaf_blit_to_bigstring,
    bigstringaf_blit_from_bytes, bigstringaf_memcmp_bigstring,
    bigstringaf_memcmp_string, bind, ret, Caml_ba_data_val, String_val.

Lemma allocated_nonneg m p n : allocated m p n → 0 <= n.
Proof. intros (blk & _ & _ & Hn & _). done. Qed.

Lemma blit_to_bigstring_run m vsrc vsrc_off vdst vdst_off vlen :
  let src := ptr_add (ba_data vsrc) (Long_val vsrc_off) in
  let dst := ptr_add (ba_data vdst) (Long_val vdst_off) in
  is_intnat vlen →
  allocated m src (Long_val vlen) → allocated m dst (Long_val vlen) →
  ∃ bs m', load_bytes m src (Long_val vlen) = Some bs
           ∧ store_bytes m dst bs = Some m'
           ∧ bigstringaf_blit_to_bigstring vsrc vsrc_off vdst vdst_off vlen m
             = Returns tt m'.
Proof.
  intros src dst Hw Hs Hd. unfold_stub.
  rewrite size_t_of_Long_val by eauto using allocated_nonneg.
  destruct (memmove_ok m dst src (Long_val vlen)) as (bs & m' & Hld & Hst & Hrun);
    [done..|].
  exists bs, m'. fold src dst. by rewrite Hrun.
Qed.

Lemma blit_to_bytes_run m vsrc vsrc_off vdst vdst_off vlen :
  let src := ptr_add (ba_data vsrc) (Long_val vsrc_off) in
  let dst := ptr_add (str_addr vdst) (Long_val vdst_off) in
  is_intnat vlen →
  allocated m src (Long_val vlen) → allocated m dst (Long_val vlen) →
  ¬ overlap dst src (Long_val vlen) →
  ∃ bs m', load_bytes m src (Long_val vlen) = Some bs
           ∧ store_bytes m dst bs = Some m'
           ∧ bigstringaf_blit_to_bytes vsrc vsrc_off vdst vdst_off vlen m
             = Returns tt m'.
Proof.
  intros src dst Hw Hs Hd Hno. unfold_stub.
  rewrite size_t_of_Long_val by eauto using allocated_nonneg.
  destruct (memcpy_ok m dst src (Long_val vlen)) as (bs & m' & Hld & Hst & Hrun);
    [done..|].
  exists bs, m'. fold src dst. by rewrite Hrun.
Qed.

Lemma blit_from_bytes_run m vsrc vsrc_off vdst vdst_off vlen :
  let src := ptr_add (str_addr vsrc) (Long_val vsrc_off) in
  let dst := ptr_add (ba_data vdst) (Long_val vdst_off) in
  is_intnat vlen →
  allocated m src (Long_val vlen) → allocated m dst (Long_val vlen) →
  ¬ overlap dst src (Long_val vlen) →
  ∃ bs m', load_bytes m src (Long_val vlen) = Some bs
           ∧ store_bytes m dst bs = Some m'
           ∧ bigstringaf_blit_from_bytes vsrc vsrc_off vdst vdst_off vlen m
             = Returns tt m'.
Proof.
  intros src dst Hw Hs Hd Hno. unfold_stub.
  rewrite size_t_of_Long_val by eauto using allocated_nonneg.
  destruct (memcpy_ok m dst src (Long_val vlen)) as (bs & m' & Hld & Hst & Hrun);
    [done..|].
  exists bs, m'. fold src dst. by rewrite Hrun.
Qed.

Lemma memcmp_bigstring_run m vba1 vba1_off vba2 vba2_off vlen :
  let ba1 := ptr_add (ba_data vba1) (Long_val vba1_off) in
  let ba2 := ptr_add (ba_data vba2) (Long_val vba2_off) in
  is_intnat vlen →
  allocated m ba1 (Long_val vlen) → allocated m ba2 (Long_val vlen) →
  ∃ xs ys, load_bytes m ba1 (Long_val vlen) = Some xs
           ∧ load_bytes m ba2 (Long_val vlen) = Some ys
           ∧ bigstringaf_memcmp_bigstring vba1 vba1_off vba2 vba2_off vlen m
             = Returns (Val_int (memcmp_result ba1 ba2 xs ys)) m.
Proof.
  intros ba1 ba2 Hw H1 H2. unfold_stub.
  rewrite size_t_of_Long_val by eauto using allocated_nonneg.
  destruct (memcmp_ok m ba1 ba2 (Long_val vlen)) as (xs & ys & Hx & Hy & Hrun);
    [done..|].
  exists xs, ys. fold ba1 ba2. by rewrite Hrun.
Qed.

Lemma memcmp_string_run m vba vba_off vstr vstr_off vlen :
  let buf1 := ptr_add (ba_data vba) (Long_val vba_off) in
  let buf2 := ptr_add (str_addr vstr) (Long_val vstr_off) in
  is_intnat vlen →
  allocated m buf1 (Long_val vlen) → allocated m buf2 (Long_val vlen) →
  ∃ xs ys, load_bytes m buf1 (Long_val vlen) = Some xs
           ∧ load_bytes m buf2 (Long_val vlen) = Some ys
           ∧ bigstringaf_memcmp_string vba vba_off vstr vstr_off vlen m
             = Returns (Val_int (memcmp_result buf1 buf2 xs ys)) m.
Proof.
  intros buf1 buf2 Hw H1 H2. unfold_stub.
  rewrite size_t_of_Long_val by eauto using allocated_nonneg.
  destruct (memcmp_ok m buf1 buf2 (Long_val vlen)) as (xs & ys & Hx & Hy & Hrun);
    [done..|].
  exists xs, ys. fold buf1 buf2. by rewrite Hrun.
Qed.

(** In-bounds views of valid operands address allocated ranges. *)
Lemma view_allocated_ba m ba off len :
  valid_ba m ba → in_bounds (ba_dim ba) off len →
  allocated m (ptr_add (ba_data ba) off) len.
Proof. apply allocated_sub. Qed.

Lemma view_allocated_str m s off len :
  valid_str m s → in_bounds (str_length s) off len →
  allocated m (ptr_add (str_addr s) off) len.
Proof. apply allocated_sub. Qed.

(** * Comparison *)

(** C4. [bigstringaf_memcmp_bigstring] and [bigstringaf_memcmp_string] follow
    the lexicographic contract on equal-length in-bounds operands: the call
    returns, the result is zero when the compared bytes are all equal, and
    otherwise its sign is that of the first pair of bytes that differ, read
    as unsigned bytes.  The buffer-against-string comparison has the same
    contract as the buffer-against-buffer one. *)
Theorem memcmp_lexicographic_contract :
  (∀ (m : memory) (vba1 vba2 : caml_ba_array) (vba1_off vba2_off vlen : value),
      valid_ba m vba1 → valid_ba m vba2 → is_intnat vlen →
      in_bounds (ba_dim vba1) (Long_val vba1_off) (Long_val vlen) →
      in_bounds (ba_dim vba2) (Long_val vba2_off) (Long_val vlen) →
      ∃ xs ys r,
        load_bytes m (ptr_add (ba_data vba1) (Long_val vba1_off)) (Long_val vlen) = Some xs
        ∧ load_bytes m (ptr_add (ba_data vba2) (Long_val vba2_off)) (Long_val vlen) = Some ys
        ∧ bigstringaf_memcmp_bigstring vba1 vba1_off vba2 vba2_off vlen m = Returns r m
        ∧ lexicographic xs ys (Int_val r))
  ∧ (∀ (m : memory) (vba : caml_ba_array) (vstr : caml_string)
       (vba_off vstr_off vlen : value),
      valid_ba m vba → valid_str m vstr → is_intnat vlen →
      in_bounds (ba_dim vba) (Long_val vba_off) (Long_val vlen) →
      in_bounds (str_length vstr) (Long_val vstr_off) (Long_val vlen) →
      ∃ xs ys r,
        load_bytes m (ptr_add (ba_data vba) (Long_val vba_off)) (Long_val vlen) = Some xs
        ∧ load_bytes m (ptr_add (str_addr vstr) (Long_val vstr_off)) (Long_val vlen) = Some ys
        ∧ bigstringaf_memcmp_string vba vba_off vstr vstr_off vlen m = Returns r m
        ∧ lexicographic xs ys (Int_val r)).
Proof.
  split.
  - intros m vba1 vba2 o1 o2 vlen V1 V2 Hw B1 B2.
    destruct (memcmp_bigstring_run m vba1 o1 vba2 o2 vlen)
      as (xs & ys & Hx & Hy & Hrun); eauto using view_allocated_ba.
    exists xs, ys. eexists. do 2 (split; [done|]). split; [exact Hrun|].
    rewrite Int_val_memcmp_result. apply memcmp_result_lexicographic.
  - intros m vba vstr o1 o2 vlen V1 V2 Hw B1 B2.
    destruct (memcmp_string_run m vba o1 vstr o2 vlen)
      as (xs & ys & Hx & Hy & Hrun);
      eauto using view_allocated_ba, view_allocated_str.
    exists xs, ys. eexists. do 2 (split; [done|]). split; [exact Hrun|].
    rewrite Int_val_memcmp_result. apply memcmp_result_lexicographic.
Qed.

Lemma valid_ba123 : valid_ba mem_cmp ba123.
Proof. solve_allocated. Qed.

Lemma valid_ba124 : valid_ba mem_cmp ba124.
Proof. solve_allocated. Qed.

Lemma valid_ba5 : valid_ba mem_str ba5.
Proof. solve_allocated. Qed.

Lemma valid_str3 : valid_str mem_str str3.
Proof. solve_allocated. Qed.


Lemma memcmp_bigstring_inv m vba1 vba1_off vba2 vba2_off vlen r m' :
  bigstringaf_memcmp_bigstring vba1 vba1_off vba2 vba2_off vlen m = Returns r m' →
  m' = m.
Proof.
  unfold_stub.
  destruct (memcmp _ _ _ m) as [r0 m0| |] eqn:Hc; [|done..].
  intros [= _ <-]. by apply memcmp_inv in Hc as [-> _].
Qed.

Lemma memcmp_string_inv m vba vba_off vstr vstr_off vlen r m' :
  bigstringaf_memcmp_string vba vba_off vstr vstr_off vlen m = Returns r m' →
  m' = m.
Proof.
  unfold_stub.
  destruct (memcmp _ _ _ m) as [r0 m0| |] eqn:Hc; [|done..].
  intros [= _ <-]. by apply memcmp_inv in Hc as [-> _].
Qed.

(** C8. The comparisons are pure reads.  Whatever the arguments, a call that
    returns leaves the whole memory as it was; and on in-bounds operands the
    call returns, and running the same comparison twice in a row gives the
    same result both times, again with the memory unchanged. *)
Theorem memcmp_pure_and_repeatable :
  (∀ (m : memory) (vba1 vba2 : caml_ba_array) (vba1_off vba2_off vlen : value),
      (∀ r m', bigstringaf_memcmp_bigstring vba1 vba1_off vba2 vba2_off vlen m
               = Returns r m' → m' = m)
      ∧ (valid_ba m vba1 → valid_ba m vba2 → is_intnat vlen →
         in_bounds (ba_dim vba1) (Long_val vba1_off) (Long_val vlen) →
         in_bounds (ba_dim vba2) (Long_val vba2_off) (Long_val vlen) →
         let cmp := bigstringaf_memcmp_bigstring vba1 vba1_off vba2 vba2_off vlen in
         ∃ r, cmp m = Returns r m
              ∧ (do x <- cmp; do y <- cmp; ret (x, y)) m = Returns (r, r) m))
  ∧ (∀ (m : memory) (vba : caml_ba_array) (vstr : caml_string)
       (vba_off vstr_off vlen : value),
      (∀ r m', bigstringaf_memcmp_string vba vba_off vstr vstr_off vlen m
               = Returns r m' → m' = m)
      ∧ (valid_ba m vba → valid_str m vstr → is_intnat vlen →
         in_bounds (ba_dim vba) (Long_val vba_off) (Long_val vlen) →
         in_bounds (str_length vstr) (Long_val vstr_off) (Long_val vlen) →
         let cmp := bigstringaf_memcmp_string vba vba_off vstr vstr_off vlen in
         ∃ r, cmp m = Returns r m
              ∧ (do x <- cmp; do y <- cmp; ret (x, y)) m = Returns (r, r) m)).
Proof.
  split.
  - intros m vba1 vba2 o1 o2 vlen. split.
    + intros r m'. apply memcmp_bigstring_inv.
    + intros V1 V2 Hw B1 B2 cmp.
      destruct (memcmp_bigstring_run m vba1 o1 vba2 o2 vlen)
        as (xs & ys & _ & _ & Hrun); eauto using view_allocated_ba.
      eexists. split; [exact Hrun|].
      unfold bind, ret. fold cmp in Hrun. by rewrite !Hrun.
  - intros m vba vstr o1 o2 vlen. split.
    + intros r m'. apply memcmp_string_inv.
    + intros V1 V2 Hw B1 B2 cmp.
      destruct (memcmp_string_run m vba o1 vstr o2 vlen)
        as (xs & ys & _ & _ & Hrun);
        eauto using view_allocated_ba, view_allocated_str.
      eexists. split; [exact Hrun|].
      unfold bind, ret. fold cmp in Hrun. by rewrite !Hrun.
Qed.

(** * Zero-length calls *)

Lemma Long_val_Val_long_0 : Long_val (Val_long 0) = 0.
Proof. reflexivity. Qed.

Lemma is_intnat_Val_long_0 : is_intnat (Val_long 0).
Proof. by vm_compute. Qed.

Lemma load_bytes_0 m p bs : load_bytes m p 0 = Some bs → bs = [].
Proof. intros H%load_bytes_length. by destruct bs. Qed.

Lemma no_overlap_0 p q : ¬ overlap p q 0.
Proof. unfold overlap. lia. Qed.

(** C9. With length 0 and in-bounds operands, whatever the offsets, each of
    the three copies returns with the memory exactly as it was, and each of
    the two comparisons returns 0, also with the memory as it was. *)
Theorem zero_length_calls :
  ∀ (m : memory) (ba ba' : caml_ba_array) (s : caml_string) (off1 off2 off3 : value),
    valid_ba m ba → valid_ba m ba' → valid_str m s →
    in_bounds (ba_dim ba) (Long_val off1) 0 →
    in_bounds (ba_dim ba') (Long_val off2) 0 →
    in_bounds (str_length s) (Long_val off3) 0 →
    bigstringaf_blit_to_bytes ba off1 s off3 (Val_long 0) m = Returns tt m
    ∧ bigstringaf_blit_to_bigstring ba off1 ba' off2 (Val_long 0) m = Returns tt m
    ∧ bigstringaf_blit_from_bytes s off3 ba off1 (Val_long 0) m = Returns tt m
    ∧ (∃ r, bigstringaf_memcmp_bigstring ba off1 ba' off2 (Val_long 0) m = Returns r m
            ∧ Int_val r = 0)
    ∧ (∃ r, bigstringaf_memcmp_string ba off1 s off3 (Val_long 0) m = Returns r m
            ∧ Int_val r = 0).
Proof.
  intros m ba ba' s off1 off2 off3 Vba Vba' Vs B1 B2 B3.
  pose proof is_intnat_Val_long_0 as Hw.
  pose proof (view_allocated_ba _ _ _ _ Vba B1) as A1.
  pose proof (view_allocated_ba _ _ _ _ Vba' B2) as A2.
  pose proof (view_allocated_str _ _ _ _ Vs B3) as A3.
  split; [|split; [|split; [|split]]].
  - destruct (blit_to_bytes_run m ba off1 s off3 (Val_long 0))
      as (bs & m' & Hld & Hst & ->); auto using no_overlap_0.
    apply load_bytes_0 in Hld as ->. by apply store_bytes_nil in Hst as ->.
  - destruct (blit_to_bigstring_run m ba off1 ba' off2 (Val_long 0))
      as (bs & m' & Hld & Hst & ->); auto.
    apply load_bytes_0 in Hld as ->. by apply store_bytes_nil in Hst as ->.
  - destruct (blit_from_bytes_run m s off3 ba off1 (Val_long 0))
      as (bs & m' & Hld & Hst & ->); auto using no_overlap_0.
    apply load_bytes_0 in Hld as ->. by apply store_bytes_nil in Hst as ->.
  - destruct (memcmp_bigstring_run m ba off1 ba' off2 (Val_long 0))
      as (xs & ys & Hx & Hy & ->); auto.
    apply load_bytes_0 in Hx as ->. apply load_bytes_0 in Hy as ->. by eexists.
  - destruct (memcmp_string_run m ba off1 s off3 (Val_long 0))
      as (xs & ys & Hx & Hy & ->); auto.
    apply load_bytes_0 in Hx as ->. apply load_bytes_0 in Hy as ->. by eexists.
Qed.

(** * Copies between a string and a bigstring *)

Lemma other_block_no_overlap p q a b n :
  ptr_block p ≠ ptr_block q → ¬ overlap (ptr_add p a) (ptr_add q b) n.
Proof. intros Hne [Heq _]. by apply Hne. Qed.

(** C3. Round trip through a bigstring.  Let a string hold the bytes [bs],
    [L] of them; let a view of length [L] lie in bounds of a bigstring, and
    let [out] be a string of capacity at least [L]; strings and bigstring
    data live in different allocations.  Then [bigstringaf_blit_from_bytes]
    from offset 0 of the string into the view, followed by
    [bigstringaf_blit_to_bytes] from the view to offset 0 of [out], both
    return, and the first [L] bytes of [out] are [bs]. *)
Theorem blit_round_trip :
  ∀ (m : memory) (b out : caml_string) (ba : caml_ba_array)
    (voff vlen : value) (bs : list byte),
    valid_ba m ba → valid_str m out → is_intnat vlen →
    str_length b = Long_val vlen →
    str_bytes m b = Some bs →
    in_bounds (ba_dim ba) (Long_val voff) (Long_val vlen) →
    Long_val vlen <= str_length out →
    ptr_block (str_addr b) ≠ ptr_block (ba_data ba) →
    ptr_block (str_addr out) ≠ ptr_block (ba_data ba) →
    ∃ m1 m2,
      bigstringaf_blit_from_bytes b (Val_long 0) ba voff vlen m = Returns tt m1
      ∧ bigstringaf_blit_to_bytes ba voff out (Val_long 0) vlen m1 = Returns tt m2
      ∧ load_bytes m2 (str_addr out) (Long_val vlen) = Some bs.
Proof.
  intros m b out ba voff vlen bs Vba Vout Hw HL Hbs Bv Bout Nb Nout.
  unfold str_bytes in Hbs. rewrite HL in Hbs.
  assert (allocated m (str_addr b) (Long_val vlen)) as Ab.
  { apply allocated_load. eauto. }
  pose proof (allocated_nonneg _ _ _ Ab) as Hpos.
  destruct (blit_from_bytes_run m b (Val_long 0) ba voff vlen)
    as (bs0 & m1 & Hld & Hst & Hrun1).
  { done. }
  { by rewrite Long_val_Val_long_0, ptr_add_0. }
  { by apply view_allocated_ba. }
  { apply other_block_no_overlap. congruence. }
  rewrite Long_val_Val_long_0, ptr_add_0, Hbs in Hld. injection Hld as <-.
  pose proof (load_bytes_length _ _ _ _ Hbs) as Hlen.
  destruct (blit_to_bytes_run m1 ba voff out (Val_long 0) vlen)
    as (bs1 & m2 & Hld1 & Hst1 & Hrun2).
  { done. }
  { apply (store_bytes_allocated _ _ _ _ _ _ Hst). by apply view_allocated_ba. }
  { apply (store_bytes_allocated _ _ _ _ _ _ Hst).
    apply view_allocated_str; [done|]. rewrite Long_val_Val_long_0.
    unfold in_bounds. lia. }
  { by apply other_block_no_overlap. }
  apply load_store_same in Hst. rewrite Hlen, Hld1 in Hst. injection Hst as ->.
  apply load_store_same in Hst1.
  rewrite Long_val_Val_long_0, ptr_add_0, Hlen in Hst1.
  exists m1, m2. done.
Qed.

Lemma valid_out4 : valid_str mem_str out4.
Proof. solve_allocated. Qed.

Lemma blit_round_trip_witness :
  ∃ m1 m2,
    bigstringaf_blit_from_bytes str3 (Val_long 0) ba5 (Val_long 1) (Val_long 3) mem_str
      = Returns tt m1
    ∧ bigstringaf_blit_to_bytes ba5 (Val_long 1) out4 (Val_long 0) (Val_long 3) m1
      = Returns tt m2
    ∧ load_bytes m2 (str_addr out4) (Long_val (Val_long 3))
      = Some (map byte_of_Z [1; 2; 4]).
Proof.
  apply (blit_round_trip mem_str str3 out4 ba5 (Val_long 1) (Val_long 3)
           (map byte_of_Z [1; 2; 4])).
  - apply valid_ba5.
  - apply valid_out4.
  - by vm_compute.
  - reflexivity.
  - reflexivity.
  - by vm_compute.
  - by vm_compute.
  - by vm_compute.
  - by vm_compute.
Defined.

(** * What a copy leaves alone *)

Lemma store_bytes_unchanged_outside m p bs m' :
  store_bytes m p bs = Some m' →
  unchanged_outside m m' p (Z.of_nat (length bs)).
Proof.
  intros Hst. split.
  - intros q Hq. rewrite (store_bytes_read _ _ _ _ _ Hst). by rewrite decide_False.
  - intros b. by eapply store_bytes_block_size.
Qed.

(** C7. Frame of the three copies.  On in-bounds operands (strings and
    bigstring data in different allocations for the two [memcpy] copies) the
    call returns a memory in which every byte outside the destination range
    [dst_off, dst_off + len) and the size of every allocation are as before;
    so the rest of the destination region is untouched, and the whole source
    region is untouched when it is disjoint from the written range. *)
Theorem blit_frame :
  (∀ (m : memory) (vsrc : caml_ba_array) (vdst : caml_string)
     (vsrc_off vdst_off vlen : value),
      valid_ba m vsrc → valid_str m vdst → is_intnat vlen →
      in_bounds (ba_dim vsrc) (Long_val vsrc_off) (Long_val vlen) →
      in_bounds (str_length vdst) (Long_val vdst_off) (Long_val vlen) →
      ptr_block (ba_data vsrc) ≠ ptr_block (str_addr vdst) →
      ∃ m',
        bigstringaf_blit_to_bytes vsrc vsrc_off vdst vdst_off vlen m = Returns tt m'
        ∧ unchanged_outside m m'
            (ptr_add (str_addr vdst) (Long_val vdst_off)) (Long_val vlen)
        ∧ ba_bytes m' vsrc = ba_bytes m vsrc)
  ∧ (∀ (m : memory) (vsrc vdst : caml_ba_array) (vsrc_off vdst_off vlen : value),
      valid_ba m vsrc → valid_ba m vdst → is_intnat vlen →
      in_bounds (ba_dim vsrc) (Long_val vsrc_off) (Long_val vlen) →
      in_bounds (ba_dim vdst) (Long_val vdst_off) (Long_val vlen) →
      let dst := ptr_add (ba_data vdst) (Long_val vdst_off) in
      ∃ m',
        bigstringaf_blit_to_bigstring vsrc vsrc_off vdst vdst_off vlen m = Returns tt m'
        ∧ unchanged_outside m m' dst (Long_val vlen)
        ∧ (ptr_block (ba_data vsrc) ≠ ptr_block dst
           ∨ ptr_off (ba_data vsrc) + ba_dim vsrc <= ptr_off dst
           ∨ ptr_off dst + Long_val vlen <= ptr_off (ba_data vsrc) →
           ba_bytes m' vsrc = ba_bytes m vsrc))
  ∧ (∀ (m : memory) (vsrc : caml_string) (vdst : caml_ba_array)
       (vsrc_off vdst_off vlen : value),
      valid_str m vsrc → valid_ba m vdst → is_intnat vlen →
      in_bounds (str_length vsrc) (Long_val vsrc_off) (Long_val vlen) →
      in_bounds (ba_dim vdst) (Long_val vdst_off) (Long_val vlen) →
      ptr_block (str_addr vsrc) ≠ ptr_block (ba_data vdst) →
      ∃ m',
        bigstringaf_blit_from_bytes vsrc vsrc_off vdst vdst_off vlen m = Returns tt m'
        ∧ unchanged_outside m m'
            (ptr_add (ba_data vdst) (Long_val vdst_off)) (Long_val vlen)
        ∧ str_bytes m' vsrc = str_bytes m vsrc).
Proof.
  split; [|split].
  - intros m vsrc vdst so dof vlen Vs Vd Hw Bs Bd Hne.
    destruct (blit_to_bytes_run m vsrc so vdst dof vlen)
      as (bs & m' & Hld & Hst & Hrun);
      eauto using view_allocated_ba, view_allocated_str.
    { apply other_block_no_overlap. congruence. }
    exists m'. split; [done|].
    rewrite <- (load_bytes_length _ _ _ _ Hld).
    split; [by apply store_bytes_unchanged_outside|].
    eapply load_store_other; [done|]. left. simpl. done.
  - intros m vsrc vdst so dof vlen Vs Vd Hw Bs Bd dst.
    destruct (blit_to_bigstring_run m vsrc so vdst dof vlen)
      as (bs & m' & Hld & Hst & Hrun); eauto using view_allocated_ba.
    exists m'. split; [done|].
    rewrite <- (load_bytes_length _ _ _ _ Hld).
    split; [by apply store_bytes_unchanged_outside|].
    intros Hdisj. eapply load_store_other; [done|]. done.
  - intros m vsrc vdst so dof vlen Vs Vd Hw Bs Bd Hne.
    destruct (blit_from_bytes_run m vsrc so vdst dof vlen)
      as (bs & m' & Hld & Hst & Hrun);
      eauto using view_allocated_ba, view_allocated_str.
    { apply other_block_no_overlap. congruence. }
    exists m'. split; [done|].
    rewrite <- (load_bytes_length _ _ _ _ Hld).
    split; [by apply store_bytes_unchanged_outside|].
    eapply load_store_other; [done|]. left. simpl. done.
Qed.

Lemma blit_frame_witness :
  (∃ m',
      bigstringaf_blit_to_bytes ba5 (Val_long 2) out4 (Val_long 1) (Val_long 3) mem_str
        = Returns tt m'
      ∧ unchanged_outside mem_str m'
          (ptr_add (str_addr out4) (Long_val (Val_long 1))) (Long_val (Val_long 3))
      ∧ ba_bytes m' ba5 = ba_bytes mem_str ba5)
  ∧ (let dst := ptr_add (ba_data region10) (Long_val (Val_long 2)) in
     ∃ m',
       bigstringaf_blit_to_bigstring region10 (Val_long 0) region10 (Val_long 2)
         (Val_long 6) mem10 = Returns tt m'
       ∧ unchanged_outside mem10 m' dst (Long_val (Val_long 6))
       ∧ (ptr_block (ba_data region10) ≠ ptr_block dst
          ∨ ptr_off (ba_data region10) + ba_dim region10 <= ptr_off dst
          ∨ ptr_off dst + Long_val (Val_long 6) <= ptr_off (ba_data region10) →
          ba_bytes m' region10 = ba_bytes mem10 region10))
  ∧ (∃ m',
      bigstringaf_blit_from_bytes str3 (Val_long 0) ba5 (Val_long 3) (Val_long 2) mem_str
        = Returns tt m'
      ∧ unchanged_outside mem_str m'
          (ptr_add (ba_data ba5) (Long_val (Val_long 3))) (Long_val (Val_long 2))
      ∧ str_bytes m' str3 = str_bytes mem_str str3).
Proof.
  split; [|split].
  - apply (proj1 blit_frame mem_str ba5 out4 (Val_long 2) (Val_long 1) (Val_long 3)).
    + apply valid_ba5.
    + apply valid_out4.
    + by vm_compute.
    + by vm_compute.
    + by vm_compute.
    + by vm_compute.
  - apply (proj1 (proj2 blit_frame) mem10 region10 region10
             (Val_long 0) (Val_long 2) (Val_long 6)).
    + apply valid_region10.
    + apply valid_region10.
    + by vm_compute.
    + by vm_compute.
    + by vm_compute.
  - apply (proj2 (proj2 blit_frame) mem_str str3 ba5
             (Val_long 0) (Val_long 3) (Val_long 2)).
    + apply valid_str3.
    + apply valid_ba5.
    + by vm_compute.
    + by vm_compute.
    + by vm_compute.
    + by vm_compute.
Defined.

(** * Two runs on equal contents *)





Lemma load_allocated m p n bs : load_bytes m p n = Some bs → allocated m p n.
Proof. intros H. apply allocated_load. eauto. Qed.

Lemma store_allocated m src p n bs m' :
  load_bytes m src n = Some bs → store_bytes m p bs = Some m' → allocated m p n.
Proof.
  intros Hld Hst. rewrite <- (load_bytes_length _ _ _ _ Hld).
  apply allocated_store. eauto.
Qed.

(** A stub run is fixed by the load and the store it performs. *)
Lemma blit_to_bigstring_exec m vsrc vsrc_off vdst vdst_off vlen bs m' :
  is_intnat vlen →
  load_bytes m (ptr_add (ba_data vsrc) (Long_val vsrc_off)) (Long_val vlen) = Some bs →
  store_bytes m (ptr_add (ba_data vdst) (Long_val vdst_off)) bs = Some m' →
  bigstringaf_blit_to_bigstring vsrc vsrc_off vdst vdst_off vlen m = Returns tt m'.
Proof.
  intros Hw L S.
  destruct (blit_to_bigstring_run m vsrc vsrc_off vdst vdst_off vlen)
    as (? & ? & L' & S' & R); eauto using load_allocated, store_allocated.
  rewrite L in L'. injection L' as <-. rewrite S in S'. by injection S' as <-.
Qed.



Lemma memcmp_bigstring_exec m vba1 vba1_off vba2 vba2_off vlen xs ys :
  is_intnat vlen →
  load_bytes m (ptr_add (ba_data vba1) (Long_val vba1_off)) (Long_val vlen) = Some xs →
  load_bytes m (ptr_add (ba_data vba2) (Long_val vba2_off)) (Long_val vlen) = Some ys →
  bigstringaf_memcmp_bigstring vba1 vba1_off vba2 vba2_off vlen m
  = Returns (Val_int (memcmp_result (ptr_add (ba_data vba1) (Long_val vba1_off))
                        (ptr_add (ba_data vba2) (Long_val vba2_off)) xs ys)) m.
Proof.
  intros Hw X Y.
  destruct (memcmp_bigstring_run m vba1 vba1_off vba2 vba2_off vlen)
    as (? & ? & X' & Y' & R); eauto using load_allocated.
  rewrite X in X'. injection X' as <-. rewrite Y in Y'. by injection Y' as <-.
Qed.

Lemma memcmp_string_exec m vba vba_off vstr vstr_off vlen xs ys :
  is_intnat vlen →
  load_bytes m (ptr_add (ba_data vba) (Long_val vba_off)) (Long_val vlen) = Some xs →
  load_bytes m (ptr_add (str_addr vstr) (Long_val vstr_off)) (Long_val vlen) = Some ys →
  bigstringaf_memcmp_string vba vba_off vstr vstr_off vlen m
  = Returns (Val_int (memcmp_result (ptr_add (ba_data vba) (Long_val vba_off))
                        (ptr_add (str_addr vstr) (Long_val vstr_off)) xs ys)) m.
Proof.
  intros Hw X Y.
  destruct (memcmp_string_run m vba vba_off vstr vstr_off vlen)
    as (? & ? & X' & Y' & R); eauto using load_allocated.
  rewrite X in X'. injection X' as <-. rewrite Y in Y'. by injection Y' as <-.
Qed.





(** * No validation in the stubs *)

Lemma memmove_never_raises dst src n m e m' : memmove dst src n m ≠ Raises e m'.
Proof.
  unfold memmove. destruct (load_bytes m src n) as [bs|]; [|done].
  by destruct (store_bytes m dst bs).
Qed.

Lemma memcpy_never_raises dst src n m e m' : memcpy dst src n m ≠ Raises e m'.
Proof. unfold memcpy. case_decide; [done|]. apply memmove_never_raises. Qed.

Lemma memcmp_never_raises s1 s2 n m e m' : memcmp s1 s2 n m ≠ Raises e m'.
Proof.
  unfold memcmp. destruct (load_bytes m s1 n); [|done].
  by destruct (load_bytes m s2 n).
Qed.

Lemma bind_never_raises {A B} (c : stub A) (k : A → stub B) m e m' :
  (∀ m0, c m ≠ Raises e m0) → (∀ a m0, k a m0 ≠ Raises e m') →
  bind c k m ≠ Raises e m'.
Proof.
  intros Hc Hk. unfold bind. destruct (c m) as [a m0|e0 m0|] eqn:Hcm; [apply Hk| |done].
  intros [= -> ->]. by apply (Hc m').
Qed.

Lemma blit_to_bytes_never_raises vsrc vsrc_off vdst vdst_off vlen m e m' :
  bigstringaf_blit_to_bytes vsrc vsrc_off vdst vdst_off vlen m ≠ Raises e m'.
Proof.
  apply bind_never_raises; [intros; apply memcpy_never_raises | done].
Qed.

Lemma blit_to_bigstring_never_raises vsrc vsrc_off vdst vdst_off vlen m e m' :
  bigstringaf_blit_to_bigstring vsrc vsrc_off vdst vdst_off vlen m ≠ Raises e m'.
Proof.
  apply bind_never_raises; [intros; apply memmove_never_raises | done].
Qed.

Lemma blit_from_bytes_never_raises vsrc vsrc_off vdst vdst_off vlen m e m' :
  bigstringaf_blit_from_bytes vsrc vsrc_off vdst vdst_off vlen m ≠ Raises e m'.
Proof.
  apply bind_never_raises; [intros; apply memcpy_never_raises | done].
Qed.

Lemma memcmp_bigstring_never_raises vba1 vba1_off vba2 vba2_off vlen m e m' :
  bigstringaf_memcmp_bigstring vba1 vba1_off vba2 vba2_off vlen m ≠ Raises e m'.
Proof.
  apply bind_never_raises; [intros; apply memcmp_never_raises | done].
Qed.

Lemma memcmp_string_never_raises vba vba_off vstr vstr_off vlen m e m' :
  bigstringaf_memcmp_string vba vba_off vstr vstr_off vlen m ≠ Raises e m'.
Proof.
  apply bind_never_raises; [intros; apply memcmp_never_raises | done].
Qed.

(** C2, amended.  The stubs do no bounds validation.  None of the five ever
    raises, [OutOfBounds] included, and none looks at the capacity of a
    region: replacing the recorded capacities by any others leaves every
    outcome as it is.  Whenever the addressed ranges lie inside allocations
    (and do not overlap, for the two [memcpy] copies), also when offset plus
    length exceeds the capacity of the region, a copy returns with the
    source bytes in the destination range and a comparison returns its
    lexicographic result. *)
Theorem stubs_do_not_check_bounds :
  (∀ (m : memory) (ba1 ba2 : caml_ba_array) (s : caml_string)
     (off1 off2 vlen : value),
      (∀ e m', bigstringaf_blit_to_bytes ba1 off1 s off2 vlen m ≠ Raises e m')
      ∧ (∀ e m', bigstringaf_blit_to_bigstring ba1 off1 ba2 off2 vlen m ≠ Raises e m')
      ∧ (∀ e m', bigstringaf_blit_from_bytes s off1 ba2 off2 vlen m ≠ Raises e m')
      ∧ (∀ e m', bigstringaf_memcmp_bigstring ba1 off1 ba2 off2 vlen m ≠ Raises e m')
      ∧ (∀ e m', bigstringaf_memcmp_string ba1 off1 s off2 vlen m ≠ Raises e m'))
  ∧ (∀ (m : memory) (ba1 ba2 : caml_ba_array) (s : caml_string)
       (off1 off2 vlen : value) (cap1 cap2 cap3 : Z),
      let ba1' := BA (ba_data ba1) cap1 in
      let ba2' := BA (ba_data ba2) cap2 in
      let s' := Str (str_addr s) cap3 in
      bigstringaf_blit_to_bytes ba1' off1 s' off2 vlen m
        = bigstringaf_blit_to_bytes ba1 off1 s off2 vlen m
      ∧ bigstringaf_blit_to_bigstring ba1' off1 ba2' off2 vlen m
        = bigstringaf_blit_to_bigstring ba1 off1 ba2 off2 vlen m
      ∧ bigstringaf_blit_from_bytes s' off1 ba2' off2 vlen m
        = bigstringaf_blit_from_bytes s off1 ba2 off2 vlen m
      ∧ bigstringaf_memcmp_bigstring ba1' off1 ba2' off2 vlen m
        = bigstringaf_memcmp_bigstring ba1 off1 ba2 off2 vlen m
      ∧ bigstringaf_memcmp_string ba1' off1 s' off2 vlen m
        = bigstringaf_memcmp_string ba1 off1 s off2 vlen m)
  ∧ (∀ (m : memory) (vsrc : caml_ba_array) (vdst : caml_string)
       (vsrc_off vdst_off vlen : value),
      let src := ptr_add (ba_data vsrc) (Long_val vsrc_off) in
      let dst := ptr_add (str_addr vdst) (Long_val vdst_off) in
      is_intnat vlen → allocated m src (Long_val vlen) →
      allocated m dst (Long_val vlen) → ¬ overlap dst src (Long_val vlen) →
      ∃ bs m',
        load_bytes m src (Long_val vlen) = Some bs
        ∧ bigstringaf_blit_to_bytes vsrc vsrc_off vdst vdst_off vlen m = Returns tt m'
        ∧ load_bytes m' dst (Long_val vlen) = Some bs)
  ∧ (∀ (m : memory) (vsrc vdst : caml_ba_array) (vsrc_off vdst_off vlen : value),
      let src := ptr_add (ba_data vsrc) (Long_val vsrc_off) in
      let dst := ptr_add (ba_data vdst) (Long_val vdst_off) in
      is_intnat vlen → allocated m src (Long_val vlen) →
      allocated m dst (Long_val vlen) →
      ∃ bs m',
        load_bytes m src (Long_val vlen) = Some bs
        ∧ bigstringaf_blit_to_bigstring vsrc vsrc_off vdst vdst_off vlen m = Returns tt m'
        ∧ load_bytes m' dst (Long_val vlen) = Some bs)
  ∧ (∀ (m : memory) (vsrc : caml_string) (vdst : caml_ba_array)
       (vsrc_off vdst_off vlen : value),
      let src := ptr_add (str_addr vsrc) (Long_val vsrc_off) in
      let dst := ptr_add (ba_data vdst) (Long_val vdst_off) in
      is_intnat vlen → allocated m src (Long_val vlen) →
      allocated m dst (Long_val vlen) → ¬ overlap dst src (Long_val vlen) →
      ∃ bs m',
        load_bytes m src (Long_val vlen) = Some bs
        ∧ bigstringaf_blit_from_bytes vsrc vsrc_off vdst vdst_off vlen m = Returns tt m'
        ∧ load_bytes m' dst (Long_val vlen) = Some bs)
  ∧ (∀ (m : memory) (vba1 vba2 : caml_ba_array) (vba1_off vba2_off vlen : value),
      let ba1 := ptr_add (ba_data vba1) (Long_val vba1_off) in
      let ba2 := ptr_add (ba_data vba2) (Long_val vba2_off) in
      is_intnat vlen → allocated m ba1 (Long_val vlen) →
      allocated m ba2 (Long_val vlen) →
      ∃ xs ys r,
        load_bytes m ba1 (Long_val vlen) = Some xs
        ∧ load_bytes m ba2 (Long_val vlen) = Some ys
        ∧ bigstringaf_memcmp_bigstring vba1 vba1_off vba2 vba2_off vlen m = Returns r m
        ∧ lexicographic xs ys (Int_val r))
  ∧ (∀ (m : memory) (vba : caml_ba_array) (vstr : caml_string)
       (vba_off vstr_off vlen : value),
      let buf1 := ptr_add (ba_data vba) (Long_val vba_off) in
      let buf2 := ptr_add (str_addr vstr) (Long_val vstr_off) in
      is_intnat vlen → allocated m buf1 (Long_val vlen) →
      allocated m buf2 (Long_val vlen) →
      ∃ xs ys r,
        load_bytes m buf1 (Long_val vlen) = Some xs
        ∧ load_bytes m buf2 (Long_val vlen) = Some ys
        ∧ bigstringaf_memcmp_string vba vba_off vstr vstr_off vlen m = Returns r m
        ∧ lexicographic xs ys (Int_val r)).
Proof.
  split; [|split; [|split; [|split; [|split; [|split]]]]].
  - intros m ba1 ba2 s off1 off2 vlen.
    repeat split; intros e m'.
    + apply blit_to_bytes_never_raises.
    + apply blit_to_bigstring_never_raises.
    + apply blit_from_bytes_never_raises.
    + apply memcmp_bigstring_never_raises.
    + apply memcmp_string_never_raises.
  - intros m ba1 ba2 s off1 off2 vlen cap1 cap2 cap3 ba1' ba2' s'.
    repeat split; reflexivity.
  - intros m vsrc vdst so dof vlen src dst Hw As Ad Hno.
    destruct (blit_to_bytes_run m vsrc so vdst dof vlen)
      as (bs & m' & Hld & Hst & Hrun); [done..|].
    exists bs, m'. split; [done|]. split; [done|].
    rewrite <- (load_bytes_length _ _ _ _ Hld). by eapply load_store_same.
  - intros m vsrc vdst so dof vlen src dst Hw As Ad.
    destruct (blit_to_bigstring_run m vsrc so vdst dof vlen)
      as (bs & m' & Hld & Hst & Hrun); [done..|].
    exists bs, m'. split; [done|]. split; [done|].
    rewrite <- (load_bytes_length _ _ _ _ Hld). by eapply load_store_same.
  - intros m vsrc vdst so dof vlen src dst Hw As Ad Hno.
    destruct (blit_from_bytes_run m vsrc so vdst dof vlen)
      as (bs & m' & Hld & Hst & Hrun); [done..|].
    exists bs, m'. split; [done|]. split; [done|].
    rewrite <- (load_bytes_length _ _ _ _ Hld). by eapply load_store_same.
  - intros m vba1 vba2 o1 o2 vlen ba1 ba2 Hw A1 A2.
    destruct (memcmp_bigstring_run m vba1 o1 vba2 o2 vlen)
      as (xs & ys & Hx & Hy & Hrun); [done..|].
    exists xs, ys. eexists. do 2 (split; [done|]). split; [exact Hrun|].
    rewrite Int_val_memcmp_result. apply memcmp_result_lexicographic.
  - intros m vba vstr o1 o2 vlen buf1 buf2 Hw A1 A2.
    destruct (memcmp_string_run m vba o1 vstr o2 vlen)
      as (xs & ys & Hx & Hy & Hrun); [done..|].
    exists xs, ys. eexists. do 2 (split; [done|]). split; [exact Hrun|].
    rewrite Int_val_memcmp_result. apply memcmp_result_lexicographic.
Qed.

(** * One length for both operands *)

(** C5, amended.  [bigstringaf_blit_to_bigstring] and
    [bigstringaf_memcmp_bigstring] take a single length that both operands
    share, so two different lengths cannot be passed and neither stub ever
    raises [LengthMismatch] or any other error.  With both views in bounds
    for that length the copy returns with the source bytes in the
    destination range, and the comparison returns leaving the memory as it
    was. *)
Theorem single_length_no_mismatch :
  ∀ (m : memory) (a b : caml_ba_array) (a_off b_off vlen : value),
    (∀ e m', bigstringaf_blit_to_bigstring a a_off b b_off vlen m ≠ Raises e m')
    ∧ (∀ e m', bigstringaf_memcmp_bigstring a a_off b b_off vlen m ≠ Raises e m')
    ∧ (valid_ba m a → valid_ba m b → is_intnat vlen →
       in_bounds (ba_dim a) (Long_val a_off) (Long_val vlen) →
       in_bounds (ba_dim b) (Long_val b_off) (Long_val vlen) →
       (∃ bs m',
           load_bytes m (ptr_add (ba_data a) (Long_val a_off)) (Long_val vlen) = Some bs
           ∧ bigstringaf_blit_to_bigstring a a_off b b_off vlen m = Returns tt m'
           ∧ load_bytes m' (ptr_add (ba_data b) (Long_val b_off)) (Long_val vlen) = Some bs)
       ∧ ∃ r, bigstringaf_memcmp_bigstring a a_off b b_off vlen m = Returns r m).
Proof.
  intros m a b oa ob vlen.
  split; [intros e m'; apply blit_to_bigstring_never_raises|].
  split; [intros e m'; apply memcmp_bigstring_never_raises|].
  intros Va Vb Hw Ba Bb. split.
  - destruct (blit_to_bigstring_run m a oa b ob vlen)
      as (bs & m' & Hld & Hst & Hrun); eauto using view_allocated_ba.
    exists bs, m'. split; [done|]. split; [done|].
    rewrite <- (load_bytes_length _ _ _ _ Hld). by eapply load_store_same.
  - destruct (memcmp_bigstring_run m a oa b ob vlen)
      as (xs & ys & _ & _ & Hrun); eauto using view_allocated_ba.
Qed.

(** * When a stub is defined *)

Lemma memmove_inv m dst src n r m' :
  memmove dst src n m = Returns r m' →
  ∃ bs, load_bytes m src n = Some bs ∧ store_bytes m dst bs = Some m'.
Proof.
  unfold memmove. destruct (load_bytes m src n) as [bs|]; [|done].
  destruct (store_bytes m dst bs) as [m1|] eqn:Hst; [|done].
  intros [= _ <-]. eauto.
Qed.

Lemma memcpy_inv m dst src n r m' :
  memcpy dst src n m = Returns r m' →
  ¬ overlap dst src n
  ∧ ∃ bs, load_bytes m src n = Some bs ∧ store_bytes m dst bs = Some m'.
Proof.
  unfold memcpy. case_decide; [done|]. intros H1. split; [done|].
  by eapply memmove_inv.
Qed.

Lemma memmove_undefined m dst src n :
  ¬ (allocated m src n ∧ allocated m dst n) → memmove dst src n m = Undefined.
Proof.
  intros Hnot. unfold memmove.
  destruct (load_bytes m src n) as [bs|] eqn:Hld; [|done].
  destruct (store_bytes m dst bs) as [m'|] eqn:Hst; [|done].
  exfalso. apply Hnot. eauto using load_allocated, store_allocated.
Qed.

Lemma memcpy_undefined m dst src n :
  ¬ (allocated m src n ∧ allocated m dst n ∧ ¬ overlap dst src n) →
  memcpy dst src n m = Undefined.
Proof.
  intros Hnot. unfold memcpy. case_decide; [done|].
  apply memmove_undefined. tauto.
Qed.

Lemma memcmp_undefined m s1 s2 n :
  ¬ (allocated m s1 n ∧ allocated m s2 n) → memcmp s1 s2 n m = Undefined.
Proof.
  intros Hnot. unfold memcmp.
  destruct (load_bytes m s1 n) as [xs|] eqn:H1; [|done].
  destruct (load_bytes m s2 n) as [ys|] eqn:H2; [|done].
  exfalso. apply Hnot. eauto using load_allocated.
Qed.

(** X1. The exact domain of the five stubs, with [n] the length as the
    [size_t] the C code converts it to.  A [memcpy] copy returns when both
    [n]-byte ranges lie inside allocations and do not overlap, and is
    undefined otherwise; the [memmove] copy and the two comparisons return
    when both ranges lie inside allocations and are undefined otherwise.
    There is no third outcome. *)
Theorem stubs_defined_exactly :
  (∀ (m : memory) (vsrc : caml_ba_array) (vdst : caml_string)
     (vsrc_off vdst_off vlen : value),
      let src := ptr_add (ba_data vsrc) (Long_val vsrc_off) in
      let dst := ptr_add (str_addr vdst) (Long_val vdst_off) in
      let n := size_t_of_intnat (Long_val vlen) in
      let ok := allocated m src n ∧ allocated m dst n ∧ ¬ overlap dst src n in
      (ok → ∃ m', bigstringaf_blit_to_bytes vsrc vsrc_off vdst vdst_off vlen m
                  = Returns tt m')
      ∧ (¬ ok → bigstringaf_blit_to_bytes vsrc vsrc_off vdst vdst_off vlen m
                = Undefined))
  ∧ (∀ (m : memory) (vsrc vdst : caml_ba_array) (vsrc_off vdst_off vlen : value),
      let src := ptr_add (ba_data vsrc) (Long_val vsrc_off) in
      let dst := ptr_add (ba_data vdst) (Long_val vdst_off) in
      let n := size_t_of_intnat (Long_val vlen) in
      let ok := allocated m src n ∧ allocated m dst n in
      (ok → ∃ m', bigstringaf_blit_to_bigstring vsrc vsrc_off vdst vdst_off vlen m
                  = Returns tt m')
      ∧ (¬ ok → bigstringaf_blit_to_bigstring vsrc vsrc_off vdst vdst_off vlen m
                = Undefined))
  ∧ (∀ (m : memory) (vsrc : caml_string) (vdst : caml_ba_array)
       (vsrc_off vdst_off vlen : value),
      let src := ptr_add (str_addr vsrc) (Long_val vsrc_off) in
      let dst := ptr_add (ba_data vdst) (Long_val vdst_off) in
      let n := size_t_of_intnat (Long_val vlen) in
      let ok := allocated m src n ∧ allocated m dst n ∧ ¬ overlap dst src n in
      (ok → ∃ m', bigstringaf_blit_from_bytes vsrc vsrc_off vdst vdst_off vlen m
                  = Returns tt m')
      ∧ (¬ ok → bigstringaf_blit_from_bytes vsrc vsrc_off vdst vdst_off vlen m
                = Undefined))
  ∧ (∀ (m : memory) (vba1 vba2 : caml_ba_array) (vba1_off vba2_off vlen : value),
      let ba1 := ptr_add (ba_data vba1) (Long_val vba1_off) in
      let ba2 := ptr_add (ba_data vba2) (Long_val vba2_off) in
      let n := size_t_of_intnat (Long_val vlen) in
      let ok := allocated m ba1 n ∧ allocated m ba2 n in
      (ok → ∃ r, bigstringaf_memcmp_bigstring vba1 vba1_off vba2 vba2_off vlen m
                 = Returns r m)
      ∧ (¬ ok → bigstringaf_memcmp_bigstring vba1 vba1_off vba2 vba2_off vlen m
                = Undefined))
  ∧ (∀ (m : memory) (vba : caml_ba_array) (vstr : caml_string)
       (vba_off vstr_off vlen : value),
      let buf1 := ptr_add (ba_data vba) (Long_val vba_off) in
      let buf2 := ptr_add (str_addr vstr) (Long_val vstr_off) in
      let n := size_t_of_intnat (Long_val vlen) in
      let ok := allocated m buf1 n ∧ allocated m buf2 n in
      (ok → ∃ r, bigstringaf_memcmp_string vba vba_off vstr vstr_off vlen m
                 = Returns r m)
      ∧ (¬ ok → bigstringaf_memcmp_string vba vba_off vstr vstr_off vlen m
                = Undefined)).
Proof.
  split; [|split; [|split; [|split]]].
  - intros m vsrc vdst so dof vlen src dst n ok. split.
    + intros (As & Ad & Hno). unfold_stub.
      destruct (memcpy_ok m dst src n) as (bs & m' & _ & _ & Hrun); [done..|].
      exists m'. fold src dst n. by rewrite Hrun.
    + intros Hnot. unfold_stub. fold src dst n. by rewrite memcpy_undefined.
  - intros m vsrc vdst so dof vlen src dst n ok. split.
    + intros (As & Ad). unfold_stub.
      destruct (memmove_ok m dst src n) as (bs & m' & _ & _ & Hrun); [done..|].
      exists m'. fold src dst n. by rewrite Hrun.
    + intros Hnot. unfold_stub. fold src dst n. by rewrite memmove_undefined.
  - intros m vsrc vdst so dof vlen src dst n ok. split.
    + intros (As & Ad & Hno). unfold_stub.
      destruct (memcpy_ok m dst src n) as (bs & m' & _ & _ & Hrun); [done..|].
      exists m'. fold src dst n. by rewrite Hrun.
    + intros Hnot. unfold_stub. fold src dst n. by rewrite memcpy_undefined.
  - intros m vba1 vba2 o1 o2 vlen ba1 ba2 n ok. split.
    + intros (A1 & A2). unfold_stub.
      destruct (memcmp_ok m ba1 ba2 n) as (xs & ys & _ & _ & Hrun); [done..|].
      eexists. fold ba1 ba2 n. by rewrite Hrun.
    + intros Hnot. unfold_stub. fold ba1 ba2 n. by rewrite memcmp_undefined.
  - intros m vba vstr o1 o2 vlen buf1 buf2 n ok. split.
    + intros (A1 & A2). unfold_stub.
      destruct (memcmp_ok m buf1 buf2 n) as (xs & ys & _ & _ & Hrun); [done..|].
      eexists. fold buf1 buf2 n. by rewrite Hrun.
    + intros Hnot. unfold_stub. fold buf1 buf2 n. by rewrite memcmp_undefined.
Qed.

(** * Negative lengths *)

Lemma size_t_of_negative v :
  is_intnat v → Long_val v < 0 → 2 ^ 63 <= size_t_of_intnat (Long_val v).
Proof.
  unfold is_intnat, size_t_of_intnat, intnat_bits. rewrite Long_val_div2.
  intros Hv Hneg.
  assert (- 2 ^ 62 <= v / 2) by (apply Z.div_le_lower_bound; lia).
  replace ((v / 2) mod 2 ^ 64) with (v / 2 + 2 ^ 64); [lia|].
  apply Z.mod_unique with (q := -1); lia.
Qed.

Lemma huge_not_allocated m p n :
  small_allocations m → 2 ^ 63 <= n → ¬ allocated m p n.
Proof.
  intros Hsmall Hn (sz & Hsz & H0 & _ & Hle)%allocated_block_size.
  apply Hsmall in Hsz. lia.
Qed.

(** X2. A negative length is not a no-op.  The conversion to [size_t] turns
    it into a length of at least 2^63, which no allocation holds, so each of
    the five stubs has undefined behaviour, whatever the operands and
    offsets. *)
Theorem negative_length_undefined :
  ∀ (m : memory) (ba1 ba2 : caml_ba_array) (s : caml_string)
    (off1 off2 vlen : value),
    small_allocations m → is_intnat vlen → Long_val vlen < 0 →
    bigstringaf_blit_to_bytes ba1 off1 s off2 vlen m = Undefined
    ∧ bigstringaf_blit_to_bigstring ba1 off1 ba2 off2 vlen m = Undefined
    ∧ bigstringaf_blit_from_bytes s off1 ba2 off2 vlen m = Undefined
    ∧ bigstringaf_memcmp_bigstring ba1 off1 ba2 off2 vlen m = Undefined
    ∧ bigstringaf_memcmp_string ba1 off1 s off2 vlen m = Undefined.
Proof.
  intros m ba1 ba2 s off1 off2 vlen Hsmall Hw Hneg.
  pose proof (size_t_of_negative _ Hw Hneg) as Hn.
  pose proof (huge_not_allocated m) as Hhuge.
  repeat split; unfold_stub.
  - rewrite memcpy_undefined; [done|]. intros (A & _). by eapply Hhuge.
  - rewrite memmove_undefined; [done|]. intros (A & _). by eapply Hhuge.
  - rewrite memcpy_undefined; [done|]. intros (A & _). by eapply Hhuge.
  - rewrite memcmp_undefined; [done|]. intros (A & _). by eapply Hhuge.
  - rewrite memcmp_undefined; [done|]. intros (A & _). by eapply Hhuge.
Qed.

Lemma small_allocations_mem_str : small_allocations mem_str.
Proof.
  intros b sz Hsz. unfold block_size in Hsz.
  destruct (mem_str !! b) as [blk|] eqn:Hb; [|done].
  simpl in Hsz. injection Hsz as <-.
  assert (length blk <= 8)%nat; [|lia].
  unfold mem_str in Hb.
  destruct (decide (b = 0%nat)) as [->|]; [by injection Hb as <-; vm_compute; lia|].
  rewrite lookup_insert_ne in Hb by done.
  destruct (decide (b = 1%nat)) as [->|]; [by injection Hb as <-; vm_compute; lia|].
  rewrite lookup_insert_ne in Hb by done.
  destruct (decide (b = 2%nat)) as [->|]; [by injection Hb as <-; vm_compute; lia|].
  by rewrite lookup_singleton_ne in Hb.
Qed.

(** * Copies composed with copies and comparisons *)

(** X3. Copying a view of a bigstring onto itself, same offset and length,
    returns and leaves the whole memory as it was. *)
Theorem blit_to_bigstring_self :
  ∀ (m : memory) (v : caml_ba_array) (v_off vlen : value),
    valid_ba m v → is_intnat vlen →
    in_bounds (ba_dim v) (Long_val v_off) (Long_val vlen) →
    bigstringaf_blit_to_bigstring v v_off v v_off vlen m = Returns tt m.
Proof.
  intros m v o vlen V Hw B.
  destruct (blit_to_bigstring_run m v o v o vlen)
    as (bs & m' & Hld & Hst & ->); eauto using view_allocated_ba.
  apply store_load_id in Hld. rewrite Hld in Hst. by injection Hst as <-.
Qed.

Lemma blit_to_bigstring_self_witness :
  bigstringaf_blit_to_bigstring region10 (Val_long 3) region10 (Val_long 3)
    (Val_long 5) mem10 = Returns tt mem10.
Proof.
  apply (blit_to_bigstring_self mem10 region10 (Val_long 3) (Val_long 5)).
  - apply valid_region10.
  - by vm_compute.
  - by vm_compute.
Defined.

(** After a store, the source of a disjoint copy still holds its bytes and
    the destination holds the same bytes. *)
Lemma copy_post m src dst n bs m' :
  load_bytes m src n = Some bs → store_bytes m dst bs = Some m' →
  ¬ overlap dst src n →
  load_bytes m' src n = Some bs ∧ load_bytes m' dst n = Some bs.
Proof.
  intros Hld Hst Hno. pose proof (load_bytes_length _ _ _ _ Hld) as Hlen.
  split.
  - rewrite <- Hld. eapply load_store_disjoint; [done|].
    rewrite Hlen. by apply no_overlap_disjoint.
  - rewrite <- Hlen. by eapply load_store_same.
Qed.

Lemma overlap_sym p q n : overlap p q n → overlap q p n.
Proof. unfold overlap. intros (-> & ? & ?). done. Qed.

(** X4. When the source and destination ranges do not overlap, running a
    copy a second time with the same arguments changes nothing: the second
    call returns the memory the first one produced.  This holds for the
    three copy stubs. *)
Theorem blit_twice_is_once :
  (∀ (m : memory) (vsrc : caml_ba_array) (vdst : caml_string)
     (vsrc_off vdst_off vlen : value),
      let src := ptr_add (ba_data vsrc) (Long_val vsrc_off) in
      let dst := ptr_add (str_addr vdst) (Long_val vdst_off) in
      is_intnat vlen → allocated m src (Long_val vlen) →
      allocated m dst (Long_val vlen) → ¬ overlap dst src (Long_val vlen) →
      ∃ m',
        bigstringaf_blit_to_bytes vsrc vsrc_off vdst vdst_off vlen m = Returns tt m'
        ∧ bigstringaf_blit_to_bytes vsrc vsrc_off vdst vdst_off vlen m' = Returns tt m')
  ∧ (∀ (m : memory) (vsrc vdst : caml_ba_array) (vsrc_off vdst_off vlen : value),
      let src := ptr_add (ba_data vsrc) (Long_val vsrc_off) in
      let dst := ptr_add (ba_data vdst) (Long_val vdst_off) in
      is_intnat vlen → allocated m src (Long_val vlen) →
      allocated m dst (Long_val vlen) → ¬ overlap dst src (Long_val vlen) →
      ∃ m',
        bigstringaf_blit_to_bigstring vsrc vsrc_off vdst vdst_off vlen m = Returns tt m'
        ∧ bigstringaf_blit_to_bigstring vsrc vsrc_off vdst vdst_off vlen m' = Returns tt m')
  ∧ (∀ (m : memory) (vsrc : caml_string) (vdst : caml_ba_array)
       (vsrc_off vdst_off vlen : value),
      let src := ptr_add (str_addr vsrc) (Long_val vsrc_off) in
      let dst := ptr_add (ba_data vdst) (Long_val vdst_off) in
      is_intnat vlen → allocated m src (Long_val vlen) →
      allocated m dst (Long_val vlen) → ¬ overlap dst src (Long_val vlen) →
      ∃ m',
        bigstringaf_blit_from_bytes vsrc vsrc_off vdst vdst_off vlen m = Returns tt m'
        ∧ bigstringaf_blit_from_bytes vsrc vsrc_off vdst vdst_off vlen m' = Returns tt m').
Proof.
  split; [|split].
  - intros m vsrc vdst so dof vlen src dst Hw As Ad Hno. subst src dst.
    destruct (blit_to_bytes_run m vsrc so vdst dof vlen)
      as (bs & m' & Hld & Hst & Hrun); [done..|].
    exists m'. split; [done|].
    destruct (copy_post _ _ _ _ _ _ Hld Hst Hno) as [Ls Ld].
    destruct (blit_to_bytes_run m' vsrc so vdst dof vlen)
      as (bs' & m'' & Hld' & Hst' & ->); eauto using load_allocated.
    rewrite Ls in Hld'. injection Hld' as <-.
    rewrite (store_store_same _ _ _ _ Hst) in Hst'.
    by injection Hst' as <-.
  - intros m vsrc vdst so dof vlen src dst Hw As Ad Hno. subst src dst.
    destruct (blit_to_bigstring_run m vsrc so vdst dof vlen)
      as (bs & m' & Hld & Hst & Hrun); [done..|].
    exists m'. split; [done|].
    destruct (copy_post _ _ _ _ _ _ Hld Hst Hno) as [Ls Ld].
    destruct (blit_to_bigstring_run m' vsrc so vdst dof vlen)
      as (bs' & m'' & Hld' & Hst' & ->); eauto using load_allocated.
    rewrite Ls in Hld'. injection Hld' as <-.
    rewrite (store_store_same _ _ _ _ Hst) in Hst'.
    by injection Hst' as <-.
  - intros m vsrc vdst so dof vlen src dst Hw As Ad Hno. subst src dst.
    destruct (blit_from_bytes_run m vsrc so vdst dof vlen)
      as (bs & m' & Hld & Hst & Hrun); [done..|].
    exists m'. split; [done|].
    destruct (copy_post _ _ _ _ _ _ Hld Hst Hno) as [Ls Ld].
    destruct (blit_from_bytes_run m' vsrc so vdst dof vlen)
      as (bs' & m'' & Hld' & Hst' & ->); eauto using load_allocated.
    rewrite Ls in Hld'. injection Hld' as <-.
    rewrite (store_store_same _ _ _ _ Hst) in Hst'.
    by injection Hst' as <-.
Qed.

Lemma blit_twice_is_once_witness :
  (∃ m',
      bigstringaf_blit_to_bytes ba5 (Val_long 2) out4 (Val_long 1) (Val_long 3) mem_str
        = Returns tt m'
      ∧ bigstringaf_blit_to_bytes ba5 (Val_long 2) out4 (Val_long 1) (Val_long 3) m'
        = Returns tt m')
  ∧ (∃ m',
      bigstringaf_blit_to_bigstring region10 (Val_long 0) region10 (Val_long 5)
        (Val_long 4) mem10 = Returns tt m'
      ∧ bigstringaf_blit_to_bigstring region10 (Val_long 0) region10 (Val_long 5)
          (Val_long 4) m' = Returns tt m')
  ∧ (∃ m',
      bigstringaf_blit_from_bytes str3 (Val_long 0) ba5 (Val_long 2) (Val_long 3) mem_str
        = Returns tt m'
      ∧ bigstringaf_blit_from_bytes str3 (Val_long 0) ba5 (Val_long 2) (Val_long 3) m'
        = Returns tt m').
Proof.
  destruct blit_twice_is_once as (H1 & H2 & H3).
  split; [|split].
  - apply (H1 mem_str ba5 out4 (Val_long 2) (Val_long 1) (Val_long 3));
      [by vm_compute | solve_allocated | solve_allocated | solve_no_overlap].
  - apply (H2 mem10 region10 region10 (Val_long 0) (Val_long 5) (Val_long 4));
      [by vm_compute | solve_allocated | solve_allocated | solve_no_overlap].
  - apply (H3 mem_str str3 ba5 (Val_long 0) (Val_long 2) (Val_long 3));
      [by vm_compute | solve_allocated | solve_allocated | solve_no_overlap].
Defined.

(** X5. A copy followed by a comparison of its source and destination
    views gives 0, when the two ranges do not overlap: after
    [bigstringaf_blit_to_bigstring] with [bigstringaf_memcmp_bigstring], and
    after either copy between a string and a bigstring with
    [bigstringaf_memcmp_string]. *)
Theorem copy_then_compare_zero :
  (∀ (m : memory) (vsrc vdst : caml_ba_array) (vsrc_off vdst_off vlen : value),
      let src := ptr_add (ba_data vsrc) (Long_val vsrc_off) in
      let dst := ptr_add (ba_data vdst) (Long_val vdst_off) in
      is_intnat vlen → allocated m src (Long_val vlen) →
      allocated m dst (Long_val vlen) → ¬ overlap dst src (Long_val vlen) →
      ∃ m' r,
        bigstringaf_blit_to_bigstring vsrc vsrc_off vdst vdst_off vlen m = Returns tt m'
        ∧ bigstringaf_memcmp_bigstring vsrc vsrc_off vdst vdst_off vlen m' = Returns r m'
        ∧ Int_val r = 0)
  ∧ (∀ (m : memory) (vba : caml_ba_array) (vstr : caml_string)
       (vba_off vstr_off vlen : value),
      let src := ptr_add (ba_data vba) (Long_val vba_off) in
      let dst := ptr_add (str_addr vstr) (Long_val vstr_off) in
      is_intnat vlen → allocated m src (Long_val vlen) →
      allocated m dst (Long_val vlen) → ¬ overlap dst src (Long_val vlen) →
      ∃ m' r,
        bigstringaf_blit_to_bytes vba vba_off vstr vstr_off vlen m = Returns tt m'
        ∧ bigstringaf_memcmp_string vba vba_off vstr vstr_off vlen m' = Returns r m'
        ∧ Int_val r = 0)
  ∧ (∀ (m : memory) (vstr : caml_string) (vba : caml_ba_array)
       (vstr_off vba_off vlen : value),
      let src := ptr_add (str_addr vstr) (Long_val vstr_off) in
      let dst := ptr_add (ba_data vba) (Long_val vba_off) in
      is_intnat vlen → allocated m src (Long_val vlen) →
      allocated m dst (Long_val vlen) → ¬ overlap dst src (Long_val vlen) →
      ∃ m' r,
        bigstringaf_blit_from_bytes vstr vstr_off vba vba_off vlen m = Returns tt m'
        ∧ bigstringaf_memcmp_string vba vba_off vstr vstr_off vlen m' = Returns r m'
        ∧ Int_val r = 0).
Proof.
  split; [|split].
  - intros m vsrc vdst so dof vlen src dst Hw As Ad Hno. subst src dst.
    destruct (blit_to_bigstring_run m vsrc so vdst dof vlen)
      as (bs & m' & Hld & Hst & Hrun); [done..|].
    destruct (copy_post _ _ _ _ _ _ Hld Hst Hno) as [Ls Ld].
    exists m'. eexists.
    split; [done|]. split; [by apply memcmp_bigstring_exec|].
    by rewrite Int_val_memcmp_result, memcmp_result_refl.
  - intros m vba vstr so dof vlen src dst Hw As Ad Hno. subst src dst.
    destruct (blit_to_bytes_run m vba so vstr dof vlen)
      as (bs & m' & Hld & Hst & Hrun); [done..|].
    destruct (copy_post _ _ _ _ _ _ Hld Hst Hno) as [Ls Ld].
    exists m'. eexists.
    split; [done|]. split; [by apply memcmp_string_exec|].
    by rewrite Int_val_memcmp_result, memcmp_result_refl.
  - intros m vstr vba so dof vlen src dst Hw As Ad Hno. subst src dst.
    destruct (blit_from_bytes_run m vstr so vba dof vlen)
      as (bs & m' & Hld & Hst & Hrun); [done..|].
    destruct (copy_post _ _ _ _ _ _ Hld Hst Hno) as [Ls Ld].
    exists m'. eexists.
    split; [done|]. split; [by apply memcmp_string_exec|].
    by rewrite Int_val_memcmp_result, memcmp_result_refl.
Qed.

Lemma no_overlap_sym p q n : ¬ overlap p q n → ¬ overlap q p n.
Proof. intros Hno Ho. by apply Hno, overlap_sym. Qed.

(** X6. Copying back is a no-op.  After a copy between ranges that do not
    overlap, the copy in the other direction, with the same offsets and
    length, returns the memory unchanged: string to bigstring after bigstring
    to string, bigstring to string after string to bigstring, and bigstring
    to bigstring with the operands swapped. *)
Theorem copy_back_is_noop :
  (∀ (m : memory) (vba : caml_ba_array) (vstr : caml_string)
     (vba_off vstr_off vlen : value),
      let src := ptr_add (ba_data vba) (Long_val vba_off) in
      let dst := ptr_add (str_addr vstr) (Long_val vstr_off) in
      is_intnat vlen → allocated m src (Long_val vlen) →
      allocated m dst (Long_val vlen) → ¬ overlap dst src (Long_val vlen) →
      ∃ m',
        bigstringaf_blit_to_bytes vba vba_off vstr vstr_off vlen m = Returns tt m'
        ∧ bigstringaf_blit_from_bytes vstr vstr_off vba vba_off vlen m' = Returns tt m')
  ∧ (∀ (m : memory) (vstr : caml_string) (vba : caml_ba_array)
       (vstr_off vba_off vlen : value),
      let src := ptr_add (str_addr vstr) (Long_val vstr_off) in
      let dst := ptr_add (ba_data vba) (Long_val vba_off) in
      is_intnat vlen → allocated m src (Long_val vlen) →
      allocated m dst (Long_val vlen) → ¬ overlap dst src (Long_val vlen) →
      ∃ m',
        bigstringaf_blit_from_bytes vstr vstr_off vba vba_off vlen m = Returns tt m'
        ∧ bigstringaf_blit_to_bytes vba vba_off vstr vstr_off vlen m' = Returns tt m')
  ∧ (∀ (m : memory) (vsrc vdst : caml_ba_array) (vsrc_off vdst_off vlen : value),
      let src := ptr_add (ba_data vsrc) (Long_val vsrc_off) in
      let dst := ptr_add (ba_data vdst) (Long_val vdst_off) in
      is_intnat vlen → allocated m src (Long_val vlen) →
      allocated m dst (Long_val vlen) → ¬ overlap dst src (Long_val vlen) →
      ∃ m',
        bigstringaf_blit_to_bigstring vsrc vsrc_off vdst vdst_off vlen m = Returns tt m'
        ∧ bigstringaf_blit_to_bigstring vdst vdst_off vsrc vsrc_off vlen m' = Returns tt m').
Proof.
  split; [|split].
  - intros m vba vstr so dof vlen src dst Hw As Ad Hno. subst src dst.
    destruct (blit_to_bytes_run m vba so vstr dof vlen)
      as (bs & m' & Hld & Hst & Hrun); [done..|].
    exists m'. split; [done|].
    destruct (copy_post _ _ _ _ _ _ Hld Hst Hno) as [Ls Ld].
    destruct (blit_from_bytes_run m' vstr dof vba so vlen)
      as (bs' & m'' & Hld' & Hst' & ->);
      eauto using load_allocated, no_overlap_sym.
    rewrite Ld in Hld'. injection Hld' as <-.
    rewrite (store_load_id _ _ _ _ Ls) in Hst'. by injection Hst' as <-.
  - intros m vstr vba so dof vlen src dst Hw As Ad Hno. subst src dst.
    destruct (blit_from_bytes_run m vstr so vba dof vlen)
      as (bs & m' & Hld & Hst & Hrun); [done..|].
    exists m'. split; [done|].
    destruct (copy_post _ _ _ _ _ _ Hld Hst Hno) as [Ls Ld].
    destruct (blit_to_bytes_run m' vba dof vstr so vlen)
      as (bs' & m'' & Hld' & Hst' & ->);
      eauto using load_allocated, no_overlap_sym.
    rewrite Ld in Hld'. injection Hld' as <-.
    rewrite (store_load_id _ _ _ _ Ls) in Hst'. by injection Hst' as <-.
  - intros m vsrc vdst so dof vlen src dst Hw As Ad Hno. subst src dst.
    destruct (blit_to_bigstring_run m vsrc so vdst dof vlen)
      as (bs & m' & Hld & Hst & Hrun); [done..|].
    exists m'. split; [done|].
    destruct (copy_post _ _ _ _ _ _ Hld Hst Hno) as [Ls Ld].
    destruct (blit_to_bigstring_run m' vdst dof vsrc so vlen)
      as (bs' & m'' & Hld' & Hst' & ->); eauto using load_allocated.
    rewrite Ld in Hld'. injection Hld' as <-.
    rewrite (store_load_id _ _ _ _ Ls) in Hst'. by injection Hst' as <-.
Qed.

Lemma copy_back_is_noop_witness :
  (∃ m',
      bigstringaf_blit_to_bytes ba5 (Val_long 2) out4 (Val_long 1) (Val_long 3) mem_str
        = Returns tt m'
      ∧ bigstringaf_blit_from_bytes out4 (Val_long 1) ba5 (Val_long 2) (Val_long 3) m'
        = Returns tt m')
  ∧ (∃ m',
      bigstringaf_blit_from_bytes str3 (Val_long 0) ba5 (Val_long 2) (Val_long 3) mem_str
        = Returns tt m'
      ∧ bigstringaf_blit_to_bytes ba5 (Val_long 2) str3 (Val_long 0) (Val_long 3) m'
        = Returns tt m')
  ∧ (∃ m',
      bigstringaf_blit_to_bigstring region10 (Val_long 0) region10 (Val_long 5)
        (Val_long 4) mem10 = Returns tt m'
      ∧ bigstringaf_blit_to_bigstring region10 (Val_long 5) region10 (Val_long 0)
          (Val_long 4) m' = Returns tt m').
Proof.
  destruct copy_back_is_noop as (H1 & H2 & H3).
  split; [|split].
  - apply (H1 mem_str ba5 out4 (Val_long 2) (Val_long 1) (Val_long 3));
      [by vm_compute | solve_allocated | solve_allocated | solve_no_overlap].
  - apply (H2 mem_str str3 ba5 (Val_long 0) (Val_long 2) (Val_long 3));
      [by vm_compute | solve_allocated | solve_allocated | solve_no_overlap].
  - apply (H3 mem10 region10 region10 (Val_long 0) (Val_long 5) (Val_long 4));
      [by vm_compute | solve_allocated | solve_allocated | solve_no_overlap].
Defined.

(** * The order computed by the comparisons *)

Lemma memcmp_bytes_zero_eq xs ys :
  length xs = length ys → memcmp_bytes xs ys = 0 → xs = ys.
Proof.
  revert ys. induction xs as [|x xs IH]; intros [|y ys]; simpl; try done.
  intros [= Hlen]. case_decide as Hxy.
  - intros H0. f_equal; [by apply uchar_inj | by apply IH].
  - lia.
Qed.

Lemma loads_same_length m p q n xs ys :
  load_bytes m p n = Some xs → load_bytes m q n = Some ys → length xs = length ys.
Proof. intros Hx%load_bytes_length Hy%load_bytes_length. lia. Qed.

(** X7. The comparisons decide equality of the compared bytes: on in-bounds
    operands the result is 0 exactly when the two ranges hold the same
    bytes.  For both comparison stubs. *)
Theorem memcmp_zero_iff_equal :
  (∀ (m : memory) (vba1 vba2 : caml_ba_array) (vba1_off vba2_off vlen : value),
      valid_ba m vba1 → valid_ba m vba2 → is_intnat vlen →
      in_bounds (ba_dim vba1) (Long_val vba1_off) (Long_val vlen) →
      in_bounds (ba_dim vba2) (Long_val vba2_off) (Long_val vlen) →
      ∃ xs ys r,
        load_bytes m (ptr_add (ba_data vba1) (Long_val vba1_off)) (Long_val vlen) = Some xs
        ∧ load_bytes m (ptr_add (ba_data vba2) (Long_val vba2_off)) (Long_val vlen) = Some ys
        ∧ bigstringaf_memcmp_bigstring vba1 vba1_off vba2 vba2_off vlen m = Returns r m
        ∧ (Int_val r = 0 ↔ xs = ys))
  ∧ (∀ (m : memory) (vba : caml_ba_array) (vstr : caml_string)
       (vba_off vstr_off vlen : value),
      valid_ba m vba → valid_str m vstr → is_intnat vlen →
      in_bounds (ba_dim vba) (Long_val vba_off) (Long_val vlen) →
      in_bounds (str_length vstr) (Long_val vstr_off) (Long_val vlen) →
      ∃ xs ys r,
        load_bytes m (ptr_add (ba_data vba) (Long_val vba_off)) (Long_val vlen) = Some xs
        ∧ load_bytes m (ptr_add (str_addr vstr) (Long_val vstr_off)) (Long_val vlen) = Some ys
        ∧ bigstringaf_memcmp_string vba vba_off vstr vstr_off vlen m = Returns r m
        ∧ (Int_val r = 0 ↔ xs = ys)).
Proof.
  split.
  - intros m vba1 vba2 o1 o2 vlen V1 V2 Hw B1 B2.
    destruct (memcmp_bigstring_run m vba1 o1 vba2 o2 vlen)
      as (xs & ys & Hx & Hy & Hrun); eauto using view_allocated_ba.
    exists xs, ys. eexists. do 2 (split; [done|]). split; [exact Hrun|].
    rewrite Int_val_memcmp_result, memcmp_result_zero. split.
    + apply memcmp_bytes_zero_eq. by eapply loads_same_length.
    + intros ->. apply memcmp_bytes_refl.
  - intros m vba vstr o1 o2 vlen V1 V2 Hw B1 B2.
    destruct (memcmp_string_run m vba o1 vstr o2 vlen)
      as (xs & ys & Hx & Hy & Hrun);
      eauto using view_allocated_ba, view_allocated_str.
    exists xs, ys. eexists. do 2 (split; [done|]). split; [exact Hrun|].
    rewrite Int_val_memcmp_result, memcmp_result_zero. split.
    + apply memcmp_bytes_zero_eq. by eapply loads_same_length.
    + intros ->. apply memcmp_bytes_refl.
Qed.

Lemma memcmp_bytes_trans xs ys zs :
  length xs = length ys → length ys = length zs →
  memcmp_bytes xs ys <= 0 → memcmp_bytes ys zs <= 0 →
  memcmp_bytes xs zs <= 0
  ∧ (memcmp_bytes xs ys < 0 ∨ memcmp_bytes ys zs < 0 → memcmp_bytes xs zs < 0).
Proof.
  revert ys zs. induction xs as [|x xs IH]; intros [|y ys] [|z zs]; simpl; try done.
  - intros _ _ _ _. split; [done|]. lia.
  - intros [= L1] [= L2].
    destruct (decide (uchar x = uchar y)) as [Exy|Nxy];
      destruct (decide (uchar y = uchar z)) as [Eyz|Nyz];
      destruct (decide (uchar x = uchar z)) as [Exz|Nxz];
      try (intros; lia).
    by apply IH.
Qed.

(** X8. The comparison results are those of an order.  For three in-bounds
    views of the same length, if the first is not above the second and the
    second not above the third, the first is not above the third, and
    strictly below it as soon as one of the two steps is strict.  The same
    holds when the last operand is a string. *)
Theorem memcmp_transitive :
  (∀ (m : memory) (a b c : caml_ba_array) (a_off b_off c_off vlen : value),
      valid_ba m a → valid_ba m b → valid_ba m c → is_intnat vlen →
      in_bounds (ba_dim a) (Long_val a_off) (Long_val vlen) →
      in_bounds (ba_dim b) (Long_val b_off) (Long_val vlen) →
      in_bounds (ba_dim c) (Long_val c_off) (Long_val vlen) →
      ∃ rab rbc rac,
        bigstringaf_memcmp_bigstring a a_off b b_off vlen m = Returns rab m
        ∧ bigstringaf_memcmp_bigstring b b_off c c_off vlen m = Returns rbc m
        ∧ bigstringaf_memcmp_bigstring a a_off c c_off vlen m = Returns rac m
        ∧ (Int_val rab <= 0 → Int_val rbc <= 0 →
           Int_val rac <= 0
           ∧ (Int_val rab < 0 ∨ Int_val rbc < 0 → Int_val rac < 0)))
  ∧ (∀ (m : memory) (a b : caml_ba_array) (s : caml_string)
       (a_off b_off s_off vlen : value),
      valid_ba m a → valid_ba m b → valid_str m s → is_intnat vlen →
      in_bounds (ba_dim a) (Long_val a_off) (Long_val vlen) →
      in_bounds (ba_dim b) (Long_val b_off) (Long_val vlen) →
      in_bounds (str_length s) (Long_val s_off) (Long_val vlen) →
      ∃ rab rbs ras,
        bigstringaf_memcmp_bigstring a a_off b b_off vlen m = Returns rab m
        ∧ bigstringaf_memcmp_string b b_off s s_off vlen m = Returns rbs m
        ∧ bigstringaf_memcmp_string a a_off s s_off vlen m = Returns ras m
        ∧ (Int_val rab <= 0 → Int_val rbs <= 0 →
           Int_val ras <= 0
           ∧ (Int_val rab < 0 ∨ Int_val rbs < 0 → Int_val ras < 0))).
Proof.
  split.
  - intros m a b c oa ob oc vlen Va Vb Vc Hw Ba Bb Bc.
    destruct (proj1 (allocated_load _ _ _) (view_allocated_ba _ _ _ _ Va Ba)) as [xs Hx].
    destruct (proj1 (allocated_load _ _ _) (view_allocated_ba _ _ _ _ Vb Bb)) as [ys Hy].
    destruct (proj1 (allocated_load _ _ _) (view_allocated_ba _ _ _ _ Vc Bc)) as [zs Hz].
    do 3 eexists.
    do 3 (split; [by apply memcmp_bigstring_exec|]).
    rewrite !Int_val_memcmp_result.
    pose proof (memcmp_bytes_trans xs ys zs
                  ltac:(by eapply loads_same_length)
                  ltac:(by eapply loads_same_length)) as Ht.
    repeat match goal with |- context [memcmp_result ?p ?q ?u ?v] =>
      pose proof (memcmp_result_cases p q u v);
      generalize dependent (memcmp_result p q u v); intros end.
    lia.
  - intros m a b s oa ob os vlen Va Vb Vs Hw Ba Bb Bs.
    destruct (proj1 (allocated_load _ _ _) (view_allocated_ba _ _ _ _ Va Ba)) as [xs Hx].
    destruct (proj1 (allocated_load _ _ _) (view_allocated_ba _ _ _ _ Vb Bb)) as [ys Hy].
    destruct (proj1 (allocated_load _ _ _) (view_allocated_str _ _ _ _ Vs Bs)) as [zs Hz].
    do 3 eexists.
    split; [by apply memcmp_bigstring_exec|].
    do 2 (split; [by apply memcmp_string_exec|]).
    rewrite !Int_val_memcmp_result.
    pose proof (memcmp_bytes_trans xs ys zs
                  ltac:(by eapply loads_same_length)
                  ltac:(by eapply loads_same_length)) as Ht.
    repeat match goal with |- context [memcmp_result ?p ?q ?u ?v] =>
      pose proof (memcmp_result_cases p q u v);
      generalize dependent (memcmp_result p q u v); intros end.
    lia.
Qed.

Lemma valid_ba123' : valid_ba mem_cmp ba123'.
Proof. solve_allocated. Qed.

Lemma memcmp_bytes_take k xs ys :
  memcmp_bytes (take k xs) (take k ys) ≠ 0 →
  memcmp_bytes xs ys = memcmp_bytes (take k xs) (take k ys).
Proof.
  revert xs ys. induction k as [|k IH]; intros [|x xs] [|y ys]; simpl; try done.
  case_decide; [apply IH | done].
Qed.

(** X9. Comparing a prefix.  Take a length and a shorter one, the views
    being in bounds for the longer.  If the comparison over the shorter
    length is not 0, the comparison over the longer length has the same
    sign; and if the comparison over the longer length is 0, so is the one
    over the shorter.  For both comparison stubs. *)
Theorem memcmp_prefix :
  (∀ (m : memory) (vba1 vba2 : caml_ba_array)
     (vba1_off vba2_off vlen vshort : value),
      valid_ba m vba1 → valid_ba m vba2 → is_intnat vlen → is_intnat vshort →
      0 <= Long_val vshort <= Long_val vlen →
      in_bounds (ba_dim vba1) (Long_val vba1_off) (Long_val vlen) →
      in_bounds (ba_dim vba2) (Long_val vba2_off) (Long_val vlen) →
      ∃ r r',
        bigstringaf_memcmp_bigstring vba1 vba1_off vba2 vba2_off vlen m = Returns r m
        ∧ bigstringaf_memcmp_bigstring vba1 vba1_off vba2 vba2_off vshort m = Returns r' m
        ∧ (Int_val r' ≠ 0 → Z.sgn (Int_val r) = Z.sgn (Int_val r'))
        ∧ (Int_val r = 0 → Int_val r' = 0))
  ∧ (∀ (m : memory) (vba : caml_ba_array) (vstr : caml_string)
       (vba_off vstr_off vlen vshort : value),
      valid_ba m vba → valid_str m vstr → is_intnat vlen → is_intnat vshort →
      0 <= Long_val vshort <= Long_val vlen →
      in_bounds (ba_dim vba) (Long_val vba_off) (Long_val vlen) →
      in_bounds (str_length vstr) (Long_val vstr_off) (Long_val vlen) →
      ∃ r r',
        bigstringaf_memcmp_string vba vba_off vstr vstr_off vlen m = Returns r m
        ∧ bigstringaf_memcmp_string vba vba_off vstr vstr_off vshort m = Returns r' m
        ∧ (Int_val r' ≠ 0 → Z.sgn (Int_val r) = Z.sgn (Int_val r'))
        ∧ (Int_val r = 0 → Int_val r' = 0)).
Proof.
  assert (∀ p q k xs ys,
    (memcmp_result p q (take k xs) (take k ys) ≠ 0 →
     Z.sgn (memcmp_result p q xs ys)
     = Z.sgn (memcmp_result p q (take k xs) (take k ys)))
    ∧ (memcmp_result p q xs ys = 0 →
       memcmp_result p q (take k xs) (take k ys) = 0)) as Hpre.
  { intros p q k xs ys. rewrite !memcmp_result_sgn, !memcmp_result_zero. split.
    - intros Hne. by rewrite (memcmp_bytes_take k).
    - intros H0. destruct (decide (memcmp_bytes (take k xs) (take k ys) = 0)) as [|Hne];
        [done|]. by rewrite <- (memcmp_bytes_take k). }
  split.
  - intros m vba1 vba2 o1 o2 vlen vshort V1 V2 Hw Hw' Hk B1 B2.
    destruct (proj1 (allocated_load _ _ _) (view_allocated_ba _ _ _ _ V1 B1)) as [xs Hx].
    destruct (proj1 (allocated_load _ _ _) (view_allocated_ba _ _ _ _ V2 B2)) as [ys Hy].
    pose proof (load_bytes_take _ _ _ _ _ Hx Hk) as Hx'.
    pose proof (load_bytes_take _ _ _ _ _ Hy Hk) as Hy'.
    do 2 eexists.
    split; [by apply memcmp_bigstring_exec|].
    split; [by apply memcmp_bigstring_exec|].
    rewrite !Int_val_memcmp_result. apply Hpre.
  - intros m vba vstr o1 o2 vlen vshort V1 V2 Hw Hw' Hk B1 B2.
    destruct (proj1 (allocated_load _ _ _) (view_allocated_ba _ _ _ _ V1 B1)) as [xs Hx].
    destruct (proj1 (allocated_load _ _ _) (view_allocated_str _ _ _ _ V2 B2)) as [ys Hy].
    pose proof (load_bytes_take _ _ _ _ _ Hx Hk) as Hx'.
    pose proof (load_bytes_take _ _ _ _ _ Hy Hk) as Hy'.
    do 2 eexists.
    split; [by apply memcmp_string_exec|].
    split; [by apply memcmp_string_exec|].
    rewrite !Int_val_memcmp_result. apply Hpre.
Qed.

(** * Copying in two pieces *)

Lemma allocated_prefix m p n k : allocated m p n → 0 <= k <= n → allocated m p k.
Proof.
  intros (blk & Hb & Hv) Hk. exists blk. split; [done|].
  unfold valid_range in *. lia.
Qed.

Lemma chunked_copy m src dst n1 n2 :
  0 <= n1 → 0 <= n2 →
  allocated m src (n1 + n2) → allocated m dst (n1 + n2) →
  ¬ overlap dst src (n1 + n2) →
  ∃ bs1 bs2 m1 m2,
    load_bytes m src n1 = Some bs1
    ∧ store_bytes m dst bs1 = Some m1
    ∧ load_bytes m1 (ptr_add src n1) n2 = Some bs2
    ∧ store_bytes m1 (ptr_add dst n1) bs2 = Some m2
    ∧ load_bytes m src (n1 + n2) = Some (bs1 ++ bs2)
    ∧ store_bytes m dst (bs1 ++ bs2) = Some m2.
Proof.
  intros H1 H2 As Ad Hno.
  assert (in_bounds (n1 + n2) n1 n2) as Hin by (unfold in_bounds; lia).
  destruct (proj1 (allocated_load _ _ _) (allocated_prefix _ _ _ n1 As ltac:(lia)))
    as [bs1 L1].
  destruct (proj1 (allocated_load _ _ _) (allocated_sub _ _ _ _ _ As Hin)) as [bs2 L2].
  pose proof (load_bytes_length _ _ _ _ L1) as Len1.
  pose proof (load_bytes_length _ _ _ _ L2) as Len2.
  pose proof (allocated_prefix _ _ _ n1 Ad ltac:(lia)) as Ad1.
  rewrite <- Len1 in Ad1. apply allocated_store in Ad1 as [m1 S1].
  pose proof (allocated_sub _ _ _ _ _ Ad Hin) as Ad2.
  apply (store_bytes_allocated _ _ _ _ _ _ S1) in Ad2.
  rewrite <- Len2 in Ad2. apply allocated_store in Ad2 as [m2 S2].
  assert (load_bytes m1 (ptr_add src n1) n2 = Some bs2) as L2'.
  { rewrite <- L2. eapply load_store_disjoint; [done|].
    rewrite Len1. unfold ranges_disjoint, overlap in *. simpl.
    destruct (decide (ptr_block src = ptr_block dst)) as [Heq|]; [|by left].
    right. destruct (decide (ptr_off src + n1 + n2 <= ptr_off dst)); [by left|].
    right. destruct (decide (ptr_off dst + n1 <= ptr_off src + n1)); [done|].
    exfalso. apply Hno. split; [done|]. lia. }
  exists bs1, bs2, m1, m2. do 4 (split; [done|]). split.
  - by apply load_bytes_app.
  - eapply store_bytes_app; [done|]. by rewrite Len1.
Qed.

Lemma no_overlap_chunks dst src n1 n2 :
  0 <= n1 → 0 <= n2 → ¬ overlap dst src (n1 + n2) →
  ¬ overlap dst src n1 ∧ ¬ overlap (ptr_add dst n1) (ptr_add src n1) n2.
Proof.
  unfold overlap. simpl. intros H1 H2 Hno.
  split; intros (Heq & Ha & Hb); apply Hno; (split; [done|lia]).
Qed.

Lemma blit_to_bytes_exec_ranges m vsrc vsrc_off vdst vdst_off vlen bs m' :
  let src := ptr_add (ba_data vsrc) (Long_val vsrc_off) in
  let dst := ptr_add (str_addr vdst) (Long_val vdst_off) in
  is_intnat vlen → ¬ overlap dst src (Long_val vlen) →
  load_bytes m src (Long_val vlen) = Some bs → store_bytes m dst bs = Some m' →
  bigstringaf_blit_to_bytes vsrc vsrc_off vdst vdst_off vlen m = Returns tt m'.
Proof.
  intros src dst Hw Hno L S. subst src dst.
  destruct (blit_to_bytes_run m vsrc vsrc_off vdst vdst_off vlen)
    as (? & ? & L' & S' & R); eauto using load_allocated, store_allocated.
  rewrite L in L'. injection L' as <-. rewrite S in S'. by injection S' as <-.
Qed.

Lemma blit_from_bytes_exec_ranges m vsrc vsrc_off vdst vdst_off vlen bs m' :
  let src := ptr_add (str_addr vsrc) (Long_val vsrc_off) in
  let dst := ptr_add (ba_data vdst) (Long_val vdst_off) in
  is_intnat vlen → ¬ overlap dst src (Long_val vlen) →
  load_bytes m src (Long_val vlen) = Some bs → store_bytes m dst bs = Some m' →
  bigstringaf_blit_from_bytes vsrc vsrc_off vdst vdst_off vlen m = Returns tt m'.
Proof.
  intros src dst Hw Hno L S. subst src dst.
  destruct (blit_from_bytes_run m vsrc vsrc_off vdst vdst_off vlen)
    as (? & ? & L' & S' & R); eauto using load_allocated, store_allocated.
  rewrite L in L'. injection L' as <-. rewrite S in S'. by injection S' as <-.
Qed.

(** X10. A copy can be done in two pieces.  Let the source and destination
    ranges of a copy of [n1 + n2] bytes be allocated and not overlap.  Then
    copying the first [n1] bytes and afterwards the next [n2] bytes, with
    both offsets advanced by [n1], leaves the same memory as the one copy of
    [n1 + n2] bytes.  For the three copy stubs. *)
Theorem blit_in_two_pieces :
  (∀ (m : memory) (vsrc : caml_ba_array) (vdst : caml_string)
     (vsrc_off vdst_off vsrc_off2 vdst_off2 vlen1 vlen2 vlen : value),
      let src := ptr_add (ba_data vsrc) (Long_val vsrc_off) in
      let dst := ptr_add (str_addr vdst) (Long_val vdst_off) in
      is_intnat vlen1 → is_intnat vlen2 → is_intnat vlen →
      0 <= Long_val vlen1 → 0 <= Long_val vlen2 →
      Long_val vlen = Long_val vlen1 + Long_val vlen2 →
      Long_val vsrc_off2 = Long_val vsrc_off + Long_val vlen1 →
      Long_val vdst_off2 = Long_val vdst_off + Long_val vlen1 →
      allocated m src (Long_val vlen) → allocated m dst (Long_val vlen) →
      ¬ overlap dst src (Long_val vlen) →
      ∃ m1 m2,
        bigstringaf_blit_to_bytes vsrc vsrc_off vdst vdst_off vlen1 m = Returns tt m1
        ∧ bigstringaf_blit_to_bytes vsrc vsrc_off2 vdst vdst_off2 vlen2 m1 = Returns tt m2
        ∧ bigstringaf_blit_to_bytes vsrc vsrc_off vdst vdst_off vlen m = Returns tt m2)
  ∧ (∀ (m : memory) (vsrc vdst : caml_ba_array)
       (vsrc_off vdst_off vsrc_off2 vdst_off2 vlen1 vlen2 vlen : value),
      let src := ptr_add (ba_data vsrc) (Long_val vsrc_off) in
      let dst := ptr_add (ba_data vdst) (Long_val vdst_off) in
      is_intnat vlen1 → is_intnat vlen2 → is_intnat vlen →
      0 <= Long_val vlen1 → 0 <= Long_val vlen2 →
      Long_val vlen = Long_val vlen1 + Long_val vlen2 →
      Long_val vsrc_off2 = Long_val vsrc_off + Long_val vlen1 →
      Long_val vdst_off2 = Long_val vdst_off + Long_val vlen1 →
      allocated m src (Long_val vlen) → allocated m dst (Long_val vlen) →
      ¬ overlap dst src (Long_val vlen) →
      ∃ m1 m2,
        bigstringaf_blit_to_bigstring vsrc vsrc_off vdst vdst_off vlen1 m = Returns tt m1
        ∧ bigstringaf_blit_to_bigstring vsrc vsrc_off2 vdst vdst_off2 vlen2 m1
          = Returns tt m2
        ∧ bigstringaf_blit_to_bigstring vsrc vsrc_off vdst vdst_off vlen m = Returns tt m2)
  ∧ (∀ (m : memory) (vsrc : caml_string) (vdst : caml_ba_array)
       (vsrc_off vdst_off vsrc_off2 vdst_off2 vlen1 vlen2 vlen : value),
      let src := ptr_add (str_addr vsrc) (Long_val vsrc_off) in
      let dst := ptr_add (ba_data vdst) (Long_val vdst_off) in
      is_intnat vlen1 → is_intnat vlen2 → is_intnat vlen →
      0 <= Long_val vlen1 → 0 <= Long_val vlen2 →
      Long_val vlen = Long_val vlen1 + Long_val vlen2 →
      Long_val vsrc_off2 = Long_val vsrc_off + Long_val vlen1 →
      Long_val vdst_off2 = Long_val vdst_off + Long_val vlen1 →
      allocated m src (Long_val vlen) → allocated m dst (Long_val vlen) →
      ¬ overlap dst src (Long_val vlen) →
      ∃ m1 m2,
        bigstringaf_blit_from_bytes vsrc vsrc_off vdst vdst_off vlen1 m = Returns tt m1
        ∧ bigstringaf_blit_from_bytes vsrc vsrc_off2 vdst vdst_off2 vlen2 m1 = Returns tt m2
        ∧ bigstringaf_blit_from_bytes vsrc vsrc_off vdst vdst_off vlen m = Returns tt m2).
Proof.
  split; [|split].
  - intros m vsrc vdst so dof so2 dof2 vlen1 vlen2 vlen src dst
      W1 W2 W P1 P2 Hlen Hso Hdo As Ad Hno.
    subst src dst. rewrite Hlen in As, Ad, Hno.
    destruct (chunked_copy _ _ _ _ _ P1 P2 As Ad Hno)
      as (bs1 & bs2 & m1 & m2 & L1 & S1 & L2 & S2 & L & S).
    destruct (no_overlap_chunks _ _ _ _ P1 P2 Hno) as [N1 N2].
    exists m1, m2. split; [|split].
    + by eapply blit_to_bytes_exec_ranges.
    + eapply blit_to_bytes_exec_ranges; [done|..];
        rewrite ?Hso, ?Hdo, <- ?ptr_add_add; done.
    + eapply blit_to_bytes_exec_ranges; [done|..]; rewrite ?Hlen; done.
  - intros m vsrc vdst so dof so2 dof2 vlen1 vlen2 vlen src dst
      W1 W2 W P1 P2 Hlen Hso Hdo As Ad Hno.
    subst src dst. rewrite Hlen in As, Ad, Hno.
    destruct (chunked_copy _ _ _ _ _ P1 P2 As Ad Hno)
      as (bs1 & bs2 & m1 & m2 & L1 & S1 & L2 & S2 & L & S).
    exists m1, m2. split; [|split].
    + by eapply blit_to_bigstring_exec.
    + eapply blit_to_bigstring_exec; [done|..];
        rewrite ?Hso, ?Hdo, <- ?ptr_add_add; done.
    + eapply blit_to_bigstring_exec; [done|..]; rewrite ?Hlen; done.
  - intros m vsrc vdst so dof so2 dof2 vlen1 vlen2 vlen src dst
      W1 W2 W P1 P2 Hlen Hso Hdo As Ad Hno.
    subst src dst. rewrite Hlen in As, Ad, Hno.
    destruct (chunked_copy _ _ _ _ _ P1 P2 As Ad Hno)
      as (bs1 & bs2 & m1 & m2 & L1 & S1 & L2 & S2 & L & S).
    destruct (no_overlap_chunks _ _ _ _ P1 P2 Hno) as [N1 N2].
    exists m1, m2. split; [|split].
    + by eapply blit_from_bytes_exec_ranges.
    + eapply blit_from_bytes_exec_ranges; [done|..];
        rewrite ?Hso, ?Hdo, <- ?ptr_add_add; done.
    + eapply blit_from_bytes_exec_ranges; [done|..]; rewrite ?Hlen; done.
Qed.

Lemma blit_in_two_pieces_witness :
  (∃ m1 m2,
      bigstringaf_blit_to_bytes ba5 (Val_long 0) out4 (Val_long 1) (Val_long 1) mem_str
        = Returns tt m1
      ∧ bigstringaf_blit_to_bytes ba5 (Val_long 1) out4 (Val_long 2) (Val_long 2) m1
        = Returns tt m2
      ∧ bigstringaf_blit_to_bytes ba5 (Val_long 0) out4 (Val_long 1) (Val_long 3) mem_str
        = Returns tt m2)
  ∧ (∃ m1 m2,
      bigstringaf_blit_to_bigstring region10 (Val_long 0) region10 (Val_long 5)
        (Val_long 2) mem10 = Returns tt m1
      ∧ bigstringaf_blit_to_bigstring region10 (Val_long 2) region10 (Val_long 7)
          (Val_long 2) m1 = Returns tt m2
      ∧ bigstringaf_blit_to_bigstring region10 (Val_long 0) region10 (Val_long 5)
          (Val_long 4) mem10 = Returns tt m2)
  ∧ (∃ m1 m2,
      bigstringaf_blit_from_bytes str3 (Val_long 0) ba5 (Val_long 1) (Val_long 1) mem_str
        = Returns tt m1
      ∧ bigstringaf_blit_from_bytes str3 (Val_long 1) ba5 (Val_long 2) (Val_long 2) m1
        = Returns tt m2
      ∧ bigstringaf_blit_from_bytes str3 (Val_long 0) ba5 (Val_long 1) (Val_long 3) mem_str
        = Returns tt m2).
Proof.
  destruct blit_in_two_pieces as (H1 & H2 & H3).
  split; [|split].
  - apply (H1 mem_str ba5 out4 (Val_long 0) (Val_long 1) (Val_long 1) (Val_long 2)
             (Val_long 1) (Val_long 2) (Val_long 3));
      [by vm_compute | by vm_compute | by vm_compute | by vm_compute | by vm_compute
      | reflexivity | reflexivity | reflexivity
      | solve_allocated | solve_allocated | solve_no_overlap].
  - apply (H2 mem10 region10 region10 (Val_long 0) (Val_long 5) (Val_long 2) (Val_long 7)
             (Val_long 2) (Val_long 2) (Val_long 4));
      [by vm_compute | by vm_compute | by vm_compute | by vm_compute | by vm_compute
      | reflexivity | reflexivity | reflexivity
      | solve_allocated | solve_allocated | solve_no_overlap].
  - apply (H3 mem_str str3 ba5 (Val_long 0) (Val_long 1) (Val_long 1) (Val_long 2)
             (Val_long 1) (Val_long 2) (Val_long 3));
      [by vm_compute | by vm_compute | by vm_compute | by vm_compute | by vm_compute
      | reflexivity | reflexivity | reflexivity
      | solve_allocated | solve_allocated | solve_no_overlap].
Defined.

(** * Comparisons after a copy elsewhere *)

(** X11. A copy does not disturb a comparison of ranges it does not write.
    If both compared ranges are disjoint from the destination range of a
    copy, the comparison returns the same value after the copy as before
    it.  Shown for the bigstring copy with the bigstring comparison and for
    the two string copies with the string comparison. *)
Theorem compare_after_disjoint_copy :
  (∀ (m : memory) (vsrc vdst vba1 vba2 : caml_ba_array)
     (vsrc_off vdst_off vlen vba1_off vba2_off vk : value),
      let src := ptr_add (ba_data vsrc) (Long_val vsrc_off) in
      let dst := ptr_add (ba_data vdst) (Long_val vdst_off) in
      let ba1 := ptr_add (ba_data vba1) (Long_val vba1_off) in
      let ba2 := ptr_add (ba_data vba2) (Long_val vba2_off) in
      is_intnat vlen → is_intnat vk →
      allocated m src (Long_val vlen) → allocated m dst (Long_val vlen) →
      allocated m ba1 (Long_val vk) → allocated m ba2 (Long_val vk) →
      ranges_disjoint ba1 (Long_val vk) dst (Long_val vlen) →
      ranges_disjoint ba2 (Long_val vk) dst (Long_val vlen) →
      ∃ m' r,
        bigstringaf_blit_to_bigstring vsrc vsrc_off vdst vdst_off vlen m = Returns tt m'
        ∧ bigstringaf_memcmp_bigstring vba1 vba1_off vba2 vba2_off vk m = Returns r m
        ∧ bigstringaf_memcmp_bigstring vba1 vba1_off vba2 vba2_off vk m' = Returns r m')
  ∧ (∀ (m : memory) (vsrc : caml_ba_array) (vdst : caml_string)
       (vba : caml_ba_array) (vstr : caml_string)
       (vsrc_off vdst_off vlen vba_off vstr_off vk : value),
      let src := ptr_add (ba_data vsrc) (Long_val vsrc_off) in
      let dst := ptr_add (str_addr vdst) (Long_val vdst_off) in
      let buf1 := ptr_add (ba_data vba) (Long_val vba_off) in
      let buf2 := ptr_add (str_addr vstr) (Long_val vstr_off) in
      is_intnat vlen → is_intnat vk →
      allocated m src (Long_val vlen) → allocated m dst (Long_val vlen) →
      ¬ overlap dst src (Long_val vlen) →
      allocated m buf1 (Long_val vk) → allocated m buf2 (Long_val vk) →
      ranges_disjoint buf1 (Long_val vk) dst (Long_val vlen) →
      ranges_disjoint buf2 (Long_val vk) dst (Long_val vlen) →
      ∃ m' r,
        bigstringaf_blit_to_bytes vsrc vsrc_off vdst vdst_off vlen m = Returns tt m'
        ∧ bigstringaf_memcmp_string vba vba_off vstr vstr_off vk m = Returns r m
        ∧ bigstringaf_memcmp_string vba vba_off vstr vstr_off vk m' = Returns r m')
  ∧ (∀ (m : memory) (vsrc : caml_string) (vdst : caml_ba_array)
       (vba : caml_ba_array) (vstr : caml_string)
       (vsrc_off vdst_off vlen vba_off vstr_off vk : value),
      let src := ptr_add (str_addr vsrc) (Long_val vsrc_off) in
      let dst := ptr_add (ba_data vdst) (Long_val vdst_off) in
      let buf1 := ptr_add (ba_data vba) (Long_val vba_off) in
      let buf2 := ptr_add (str_addr vstr) (Long_val vstr_off) in
      is_intnat vlen → is_intnat vk →
      allocated m src (Long_val vlen) → allocated m dst (Long_val vlen) →
      ¬ overlap dst src (Long_val vlen) →
      allocated m buf1 (Long_val vk) → allocated m buf2 (Long_val vk) →
      ranges_disjoint buf1 (Long_val vk) dst (Long_val vlen) →
      ranges_disjoint buf2 (Long_val vk) dst (Long_val vlen) →
      ∃ m' r,
        bigstringaf_blit_from_bytes vsrc vsrc_off vdst vdst_off vlen m = Returns tt m'
        ∧ bigstringaf_memcmp_string vba vba_off vstr vstr_off vk m = Returns r m
        ∧ bigstringaf_memcmp_string vba vba_off vstr vstr_off vk m' = Returns r m').
Proof.
  split; [|split].
  - intros m vsrc vdst vba1 vba2 so dof vlen o1 o2 vk src dst ba1 ba2
      Hw Hwk As Ad A1 A2 D1 D2. subst src dst ba1 ba2.
    destruct (blit_to_bigstring_run m vsrc so vdst dof vlen)
      as (bs & m' & Hld & Hst & Hrun); [done..|].
    pose proof (load_bytes_length _ _ _ _ Hld) as Hlen. rewrite <- Hlen in D1, D2.
    destruct (proj1 (allocated_load _ _ _) A1) as [xs Hx].
    destruct (proj1 (allocated_load _ _ _) A2) as [ys Hy].
    exists m'. eexists.
    split; [done|]. split; [by apply memcmp_bigstring_exec|].
    apply memcmp_bigstring_exec; [done|..];
      by rewrite (load_store_disjoint _ _ _ _ _ _ Hst).
  - intros m vsrc vdst vba vstr so dof vlen o1 o2 vk src dst buf1 buf2
      Hw Hwk As Ad Hno A1 A2 D1 D2. subst src dst buf1 buf2.
    destruct (blit_to_bytes_run m vsrc so vdst dof vlen)
      as (bs & m' & Hld & Hst & Hrun); [done..|].
    pose proof (load_bytes_length _ _ _ _ Hld) as Hlen. rewrite <- Hlen in D1, D2.
    destruct (proj1 (allocated_load _ _ _) A1) as [xs Hx].
    destruct (proj1 (allocated_load _ _ _) A2) as [ys Hy].
    exists m'. eexists.
    split; [done|]. split; [by apply memcmp_string_exec|].
    apply memcmp_string_exec; [done|..];
      by rewrite (load_store_disjoint _ _ _ _ _ _ Hst).
  - intros m vsrc vdst vba vstr so dof vlen o1 o2 vk src dst buf1 buf2
      Hw Hwk As Ad Hno A1 A2 D1 D2. subst src dst buf1 buf2.
    destruct (blit_from_bytes_run m vsrc so vdst dof vlen)
      as (bs & m' & Hld & Hst & Hrun); [done..|].
    pose proof (load_bytes_length _ _ _ _ Hld) as Hlen. rewrite <- Hlen in D1, D2.
    destruct (proj1 (allocated_load _ _ _) A1) as [xs Hx].
    destruct (proj1 (allocated_load _ _ _) A2) as [ys Hy].
    exists m'. eexists.
    split; [done|]. split; [by apply memcmp_string_exec|].
    apply memcmp_string_exec; [done|..];
      by rewrite (load_store_disjoint _ _ _ _ _ _ Hst).
Qed.

(** * What holds whenever a copy returns *)

Lemma copy_returns_post m src dst n bs m' :
  load_bytes m src n = Some bs → store_bytes m dst bs = Some m' →
  (∀ p k, allocated m' p k ↔ allocated m p k)
  ∧ unchanged_outside m m' dst n
  ∧ load_bytes m' dst n = load_bytes m src n.
Proof.
  intros Hld Hst. pose proof (load_bytes_length _ _ _ _ Hld) as Hlen.
  split; [intros p k; by eapply store_bytes_allocated|].
  split.
  - rewrite <- Hlen. by apply store_bytes_unchanged_outside.
  - rewrite Hld, <- Hlen. by eapply load_store_same.
Qed.

(** X12. What a copy guarantees whenever it returns, with no assumption on
    the operands, [n] being the length as a [size_t].  The same ranges are
    allocated before and after (nothing is freed or resized); every byte
    outside the [n] bytes at the destination pointer is as before; and those
    [n] bytes are the ones the source range held before the call.  For the
    three copy stubs. *)
Theorem copy_postcondition :
  (∀ (m m' : memory) (vsrc : caml_ba_array) (vdst : caml_string)
     (vsrc_off vdst_off vlen : value),
      let src := ptr_add (ba_data vsrc) (Long_val vsrc_off) in
      let dst := ptr_add (str_addr vdst) (Long_val vdst_off) in
      let n := size_t_of_intnat (Long_val vlen) in
      bigstringaf_blit_to_bytes vsrc vsrc_off vdst vdst_off vlen m = Returns tt m' →
      (∀ p k, allocated m' p k ↔ allocated m p k)
      ∧ unchanged_outside m m' dst n
      ∧ load_bytes m' dst n = load_bytes m src n)
  ∧ (∀ (m m' : memory) (vsrc vdst : caml_ba_array) (vsrc_off vdst_off vlen : value),
      let src := ptr_add (ba_data vsrc) (Long_val vsrc_off) in
      let dst := ptr_add (ba_data vdst) (Long_val vdst_off) in
      let n := size_t_of_intnat (Long_val vlen) in
      bigstringaf_blit_to_bigstring vsrc vsrc_off vdst vdst_off vlen m = Returns tt m' →
      (∀ p k, allocated m' p k ↔ allocated m p k)
      ∧ unchanged_outside m m' dst n
      ∧ load_bytes m' dst n = load_bytes m src n)
  ∧ (∀ (m m' : memory) (vsrc : caml_string) (vdst : caml_ba_array)
       (vsrc_off vdst_off vlen : value),
      let src := ptr_add (str_addr vsrc) (Long_val vsrc_off) in
      let dst := ptr_add (ba_data vdst) (Long_val vdst_off) in
      let n := size_t_of_intnat (Long_val vlen) in
      bigstringaf_blit_from_bytes vsrc vsrc_off vdst vdst_off vlen m = Returns tt m' →
      (∀ p k, allocated m' p k ↔ allocated m p k)
      ∧ unchanged_outside m m' dst n
      ∧ load_bytes m' dst n = load_bytes m src n).
Proof.
  split; [|split].
  - intros m m' vsrc vdst so dof vlen src dst n. unfold_stub. fold src dst n.
    destruct (memcpy dst src n m) as [r m0| |] eqn:Hc; [|done..].
    intros [= <-]. apply memcpy_inv in Hc as (_ & bs & Hld & Hst).
    by eapply copy_returns_post.
  - intros m m' vsrc vdst so dof vlen src dst n. unfold_stub. fold src dst n.
    destruct (memmove dst src n m) as [r m0| |] eqn:Hc; [|done..].
    intros [= <-]. apply memmove_inv in Hc as (bs & Hld & Hst).
    by eapply copy_returns_post.
  - intros m m' vsrc vdst so dof vlen src dst n. unfold_stub. fold src dst n.
    destruct (memcpy dst src n m) as [r m0| |] eqn:Hc; [|done..].
    intros [= <-]. apply memcpy_inv in Hc as (_ & bs & Hld & Hst).
    by eapply copy_returns_post.
Qed.

Lemma copy_postcondition_witness :
  ((∀ p k, allocated mem_str_past_str3 p k ↔ allocated mem_str p k)
   ∧ unchanged_outside mem_str mem_str_past_str3
       (ptr_add (str_addr str3) (Long_val (Val_long 2)))
       (size_t_of_intnat (Long_val (Val_long 4)))
   ∧ load_bytes mem_str_past_str3 (ptr_add (str_addr str3) (Long_val (Val_long 2)))
       (size_t_of_intnat (Long_val (Val_long 4)))
     = load_bytes mem_str (ptr_add (ba_data ba5) (Long_val (Val_long 0)))
         (size_t_of_intnat (Long_val (Val_long 4))))
  ∧ ((∀ p k, allocated mem10_past_sub4 p k ↔ allocated mem10 p k)
     ∧ unchanged_outside mem10 mem10_past_sub4
         (ptr_add (ba_data sub4) (Long_val (Val_long 2)))
         (size_t_of_intnat (Long_val (Val_long 4)))
     ∧ load_bytes mem10_past_sub4 (ptr_add (ba_data sub4) (Long_val (Val_long 2)))
         (size_t_of_intnat (Long_val (Val_long 4)))
       = load_bytes mem10 (ptr_add (ba_data region10) (Long_val (Val_long 6)))
           (size_t_of_intnat (Long_val (Val_long 4))))
  ∧ ((∀ p k, allocated mem_str_past_sub2 p k ↔ allocated mem_str p k)
     ∧ unchanged_outside mem_str mem_str_past_sub2
         (ptr_add (ba_data sub2) (Long_val (Val_long 1)))
         (size_t_of_intnat (Long_val (Val_long 3)))
     ∧ load_bytes mem_str_past_sub2 (ptr_add (ba_data sub2) (Long_val (Val_long 1)))
         (size_t_of_intnat (Long_val (Val_long 3)))
       = load_bytes mem_str (ptr_add (str_addr str3) (Long_val (Val_long 0)))
           (size_t_of_intnat (Long_val (Val_long 3)))).
Proof.
  destruct copy_postcondition as (H1 & H2 & H3).
  split; [|split].
  - apply (H1 mem_str mem_str_past_str3 ba5 str3 (Val_long 0) (Val_long 2) (Val_long 4)).
    by vm_compute.
  - apply (H2 mem10 mem10_past_sub4 region10 sub4 (Val_long 6) (Val_long 2) (Val_long 4)).
    by vm_compute.
  - apply (H3 mem_str mem_str_past_sub2 str3 sub2 (Val_long 0) (Val_long 1) (Val_long 3)).
    by vm_compute.
Defined.
End Libc.

(** * Instances with a concrete libc *)

(** C2, as the spec states it, fails.  [sub4] is a valid region of capacity 4
    and the view at offset 2 of length 4 exceeds it.  Copying into that view
    returns normally, without [OutOfBounds], and writes four bytes, two of
    them past the region.  Copying four bytes to offset 2 of the three-byte
    string [str3] likewise returns and overwrites the padding of its block.
    Comparing the out-of-bounds view returns a result, here with a byte-wise
    [memcmp]. *)
Lemma bounds_not_enforced :
  valid_ba mem10 sub4 ∧ 2 + 4 > ba_dim sub4
  ∧ (∃ m',
        bigstringaf_blit_to_bigstring region10 (Val_long 6) sub4 (Val_long 2)
          (Val_long 4) mem10 = Returns tt m'
        ∧ load_bytes m' (ba_data region10) 10
          = Some (map byte_of_Z [0; 1; 6; 7; 8; 9; 6; 7; 8; 9])
        ∧ ba_bytes m' sub4 ≠ ba_bytes mem10 sub4)
  ∧ bigstringaf_blit_to_bigstring region10 (Val_long 6) sub4 (Val_long 2)
      (Val_long 4) mem10 ≠ Raises OutOfBounds mem10
  ∧ valid_str mem_str str3 ∧ 2 + 4 > str_length str3
  ∧ (∃ m',
        bigstringaf_blit_to_bytes ba5 (Val_long 0) str3 (Val_long 2) (Val_long 4)
          mem_str = Returns tt m'
        ∧ load_bytes m' (str_addr str3) 8
          = Some (map byte_of_Z [1; 2; 1; 2; 3; 9; 0; 4])
        ∧ str_bytes m' str3 ≠ str_bytes mem_str str3)
  ∧ bigstringaf_memcmp_bigstring libc_bytewise sub4 (Val_long 2) region10 (Val_long 6)
      (Val_long 4) mem10 = Returns (Val_int (-4)) mem10.
Proof.
  split; [solve_allocated|]. split; [by vm_compute|].
  split; [eexists; split; [by vm_compute|]; split; by vm_compute|].
  split; [by vm_compute|].
  split; [apply valid_str3|]. split; [by vm_compute|].
  split; [eexists; split; [by vm_compute|]; split; by vm_compute|].
  by vm_compute.
Qed.

Lemma stubs_do_not_check_bounds_witness :
  (∃ bs m',
      load_bytes mem_str (ptr_add (ba_data ba5) (Long_val (Val_long 0)))
        (Long_val (Val_long 4)) = Some bs
      ∧ bigstringaf_blit_to_bytes ba5 (Val_long 0) str3 (Val_long 2) (Val_long 4)
          mem_str = Returns tt m'
      ∧ load_bytes m' (ptr_add (str_addr str3) (Long_val (Val_long 2)))
          (Long_val (Val_long 4)) = Some bs)
  ∧ (∃ bs m',
      load_bytes mem10 (ptr_add (ba_data region10) (Long_val (Val_long 6)))
        (Long_val (Val_long 4)) = Some bs
      ∧ bigstringaf_blit_to_bigstring region10 (Val_long 6) sub4 (Val_long 2)
          (Val_long 4) mem10 = Returns tt m'
      ∧ load_bytes m' (ptr_add (ba_data sub4) (Long_val (Val_long 2)))
          (Long_val (Val_long 4)) = Some bs)
  ∧ (∃ bs m',
      load_bytes mem_str (ptr_add (str_addr str3) (Long_val (Val_long 0)))
        (Long_val (Val_long 3)) = Some bs
      ∧ bigstringaf_blit_from_bytes str3 (Val_long 0) sub2 (Val_long 1) (Val_long 3)
          mem_str = Returns tt m'
      ∧ load_bytes m' (ptr_add (ba_data sub2) (Long_val (Val_long 1)))
          (Long_val (Val_long 3)) = Some bs)
  ∧ (∃ xs ys r,
      load_bytes mem10 (ptr_add (ba_data sub4) (Long_val (Val_long 2)))
        (Long_val (Val_long 4)) = Some xs
      ∧ load_bytes mem10 (ptr_add (ba_data region10) (Long_val (Val_long 6)))
          (Long_val (Val_long 4)) = Some ys
      ∧ bigstringaf_memcmp_bigstring libc_aligned sub4 (Val_long 2) region10 (Val_long 6)
          (Val_long 4) mem10 = Returns r mem10
      ∧ lexicographic xs ys (Int_val r))
  ∧ (∃ xs ys r,
      load_bytes mem_str (ptr_add (ba_data sub2) (Long_val (Val_long 1)))
        (Long_val (Val_long 3)) = Some xs
      ∧ load_bytes mem_str (ptr_add (str_addr str3) (Long_val (Val_long 0)))
          (Long_val (Val_long 3)) = Some ys
      ∧ bigstringaf_memcmp_string libc_aligned sub2 (Val_long 1) str3 (Val_long 0)
          (Val_long 3) mem_str = Returns r mem_str
      ∧ lexicographic xs ys (Int_val r)).
Proof.
  destruct (stubs_do_not_check_bounds libc_aligned) as (_ & _ & H1 & H2 & H3 & H4 & H5).
  split; [|split; [|split; [|split]]].
  - apply (H1 mem_str ba5 str3 (Val_long 0) (Val_long 2) (Val_long 4)).
    + by vm_compute.
    + solve_allocated.
    + solve_allocated.
    + apply other_block_no_overlap. by vm_compute.
  - apply (H2 mem10 region10 sub4 (Val_long 6) (Val_long 2) (Val_long 4)).
    + by vm_compute.
    + solve_allocated.
    + solve_allocated.
  - apply (H3 mem_str str3 sub2 (Val_long 0) (Val_long 1) (Val_long 3)).
    + by vm_compute.
    + solve_allocated.
    + solve_allocated.
    + apply other_block_no_overlap. by vm_compute.
  - apply (H4 mem10 sub4 region10 (Val_long 2) (Val_long 6) (Val_long 4)).
    + by vm_compute.
    + solve_allocated.
    + solve_allocated.
  - apply (H5 mem_str sub2 str3 (Val_long 1) (Val_long 0) (Val_long 3)).
    + by vm_compute.
    + solve_allocated.
    + solve_allocated.
Defined.

Lemma memcmp_lexicographic_contract_witness :
  (∃ xs ys r,
      load_bytes mem_cmp (ptr_add (ba_data ba123) (Long_val (Val_long 0)))
        (Long_val (Val_long 3)) = Some xs
      ∧ load_bytes mem_cmp (ptr_add (ba_data ba124) (Long_val (Val_long 0)))
          (Long_val (Val_long 3)) = Some ys
      ∧ bigstringaf_memcmp_bigstring libc_aligned ba123 (Val_long 0) ba124 (Val_long 0)
          (Val_long 3) mem_cmp = Returns r mem_cmp
      ∧ lexicographic xs ys (Int_val r))
  ∧ (∃ xs ys r,
      load_bytes mem_str (ptr_add (ba_data ba5) (Long_val (Val_long 0)))
        (Long_val (Val_long 3)) = Some xs
      ∧ load_bytes mem_str (ptr_add (str_addr str3) (Long_val (Val_long 0)))
          (Long_val (Val_long 3)) = Some ys
      ∧ bigstringaf_memcmp_string libc_aligned ba5 (Val_long 0) str3 (Val_long 0)
          (Val_long 3) mem_str = Returns r mem_str
      ∧ lexicographic xs ys (Int_val r)).
Proof.
  split.
  - apply (proj1 (memcmp_lexicographic_contract libc_aligned) mem_cmp ba123 ba124
             (Val_long 0) (Val_long 0) (Val_long 3)).
    + apply valid_ba123.
    + apply valid_ba124.
    + by vm_compute.
    + by vm_compute.
    + by vm_compute.
  - apply (proj2 (memcmp_lexicographic_contract libc_aligned) mem_str ba5 str3
             (Val_long 0) (Val_long 0) (Val_long 3)).
    + apply valid_ba5.
    + apply valid_str3.
    + by vm_compute.
    + by vm_compute.
    + by vm_compute.
Defined.

(** C5, as the spec states it, fails.  [view_a] and [view_b] have lengths 3
    and 2.  The stubs take one length; whichever of the two is passed, the
    copy returns normally and has written that many bytes, and the
    comparison returns a result: there is no [LengthMismatch]. *)
Lemma length_mismatch_not_rejected :
  let src := view_region view_a in
  let dst := view_region view_b in
  let src_off := Val_long (view_off view_a) in
  let dst_off := Val_long (view_off view_b) in
  view_len view_a ≠ view_len view_b
  ∧ (∃ m',
        bigstringaf_blit_to_bigstring src src_off dst dst_off
          (Val_long (view_len view_a)) mem10 = Returns tt m'
        ∧ ba_bytes m' dst = Some (map byte_of_Z [0; 1; 2; 3; 4; 0; 1; 2; 8; 9])
        ∧ ba_bytes m' dst ≠ ba_bytes mem10 dst)
  ∧ (∃ m',
        bigstringaf_blit_to_bigstring src src_off dst dst_off
          (Val_long (view_len view_b)) mem10 = Returns tt m'
        ∧ ba_bytes m' dst = Some (map byte_of_Z [0; 1; 2; 3; 4; 0; 1; 7; 8; 9])
        ∧ ba_bytes m' dst ≠ ba_bytes mem10 dst)
  ∧ bigstringaf_memcmp_bigstring libc_bytewise src src_off dst dst_off
      (Val_long (view_len view_a)) mem10 = Returns (Val_int (-5)) mem10
  ∧ bigstringaf_memcmp_bigstring libc_bytewise src src_off dst dst_off
      (Val_long (view_len view_b)) mem10 = Returns (Val_int (-5)) mem10
  ∧ (∀ (lc : libc) vlen m',
        bigstringaf_blit_to_bigstring src src_off dst dst_off vlen mem10
          ≠ Raises LengthMismatch m'
        ∧ bigstringaf_memcmp_bigstring lc src src_off dst dst_off vlen mem10
          ≠ Raises LengthMismatch m').
Proof.
  intros src dst src_off dst_off.
  split; [by vm_compute|].
  split; [eexists; split; [by vm_compute|]; split; by vm_compute|].
  split; [eexists; split; [by vm_compute|]; split; by vm_compute|].
  split; [by vm_compute|]. split; [by vm_compute|].
  intros lc vlen m'. split.
  - apply blit_to_bigstring_never_raises.
  - apply memcmp_bigstring_never_raises.
Qed.

Lemma single_length_no_mismatch_witness :
  (∃ bs m',
      load_bytes mem10 (ptr_add (ba_data region10) (Long_val (Val_long 0)))
        (Long_val (Val_long 2)) = Some bs
      ∧ bigstringaf_blit_to_bigstring region10 (Val_long 0) region10 (Val_long 5)
          (Val_long 2) mem10 = Returns tt m'
      ∧ load_bytes m' (ptr_add (ba_data region10) (Long_val (Val_long 5)))
          (Long_val (Val_long 2)) = Some bs)
  ∧ ∃ r, bigstringaf_memcmp_bigstring libc_aligned region10 (Val_long 0) region10 (Val_long 5)
           (Val_long 2) mem10 = Returns r mem10.
Proof.
  apply (single_length_no_mismatch libc_aligned mem10 region10 region10
           (Val_long 0) (Val_long 5) (Val_long 2)).
  - apply valid_region10.
  - apply valid_region10.
  - by vm_compute.
  - by vm_compute.
  - by vm_compute.
Defined.



Lemma memcmp_pure_and_repeatable_witness :
  (let cmp := bigstringaf_memcmp_bigstring libc_aligned ba123 (Val_long 0) ba124 (Val_long 0)
                (Val_long 3) in
   ∃ r, cmp mem_cmp = Returns r mem_cmp
        ∧ (do x <- cmp; do y <- cmp; ret (x, y)) mem_cmp = Returns (r, r) mem_cmp)
  ∧ (let cmp := bigstringaf_memcmp_string libc_aligned ba5 (Val_long 1) str3 (Val_long 1)
                  (Val_long 2) in
     ∃ r, cmp mem_str = Returns r mem_str
          ∧ (do x <- cmp; do y <- cmp; ret (x, y)) mem_str = Returns (r, r) mem_str).
Proof.
  split.
  - apply (proj2 (proj1 (memcmp_pure_and_repeatable libc_aligned) mem_cmp ba123 ba124
                    (Val_long 0) (Val_long 0) (Val_long 3))).
    + apply valid_ba123.
    + apply valid_ba124.
    + by vm_compute.
    + by vm_compute.
    + by vm_compute.
  - apply (proj2 (proj2 (memcmp_pure_and_repeatable libc_aligned) mem_str ba5 str3
                    (Val_long 1) (Val_long 1) (Val_long 2))).
    + apply valid_ba5.
    + apply valid_str3.
    + by vm_compute.
    + by vm_compute.
    + by vm_compute.
Defined.

Lemma zero_length_calls_witness :
  bigstringaf_blit_to_bytes ba5 (Val_long 5) str3 (Val_long 3) (Val_long 0) mem_str
    = Returns tt mem_str
  ∧ bigstringaf_blit_to_bigstring ba5 (Val_long 5) ba5 (Val_long 2) (Val_long 0) mem_str
    = Returns tt mem_str
  ∧ bigstringaf_blit_from_bytes str3 (Val_long 3) ba5 (Val_long 5) (Val_long 0) mem_str
    = Returns tt mem_str
  ∧ (∃ r, bigstringaf_memcmp_bigstring libc_aligned ba5 (Val_long 5) ba5 (Val_long 2) (Val_long 0)
            mem_str = Returns r mem_str
          ∧ Int_val r = 0)
  ∧ (∃ r, bigstringaf_memcmp_string libc_aligned ba5 (Val_long 5) str3 (Val_long 3) (Val_long 0)
            mem_str = Returns r mem_str
          ∧ Int_val r = 0).
Proof.
  apply (zero_length_calls libc_aligned mem_str ba5 ba5 str3 (Val_long 5) (Val_long 2) (Val_long 3)).
  - apply valid_ba5.
  - apply valid_ba5.
  - apply valid_str3.
  - by vm_compute.
  - by vm_compute.
  - by vm_compute.
Defined.



Lemma stubs_defined_exactly_witness :
  bigstringaf_blit_to_bytes ba_alias (Val_long 0) str3 (Val_long 1) (Val_long 2) mem_str
    = Undefined
  ∧ (∃ m', bigstringaf_blit_to_bigstring ba_alias (Val_long 0) ba_alias (Val_long 1)
             (Val_long 2) mem_str = Returns tt m')
  ∧ bigstringaf_memcmp_bigstring libc_aligned ba5 (Val_long 3) ba5 (Val_long 0) (Val_long 3) mem_str
    = Undefined.
Proof.
  destruct (stubs_defined_exactly libc_aligned) as (H1 & H2 & _ & H4 & _).
  split; [|split].
  - apply (proj2 (H1 mem_str ba_alias str3 (Val_long 0) (Val_long 1) (Val_long 2))).
    intros (_ & _ & Hno). apply Hno. by vm_compute.
  - apply (proj1 (H2 mem_str ba_alias ba_alias (Val_long 0) (Val_long 1) (Val_long 2))).
    split; solve_allocated.
  - apply (proj2 (H4 mem_str ba5 ba5 (Val_long 3) (Val_long 0) (Val_long 3))).
    intros ((blk & Hb & Hv) & _). vm_compute in Hb. injection Hb as <-.
    vm_compute in Hv. destruct Hv as (_ & _ & Hv). by apply Hv.
Defined.

Lemma negative_length_undefined_witness :
  bigstringaf_blit_to_bytes ba5 (Val_long 0) str3 (Val_long 0) (Val_long (-1)) mem_str
    = Undefined
  ∧ bigstringaf_blit_to_bigstring ba5 (Val_long 0) ba5 (Val_long 0) (Val_long (-1)) mem_str
    = Undefined
  ∧ bigstringaf_blit_from_bytes str3 (Val_long 0) ba5 (Val_long 0) (Val_long (-1)) mem_str
    = Undefined
  ∧ bigstringaf_memcmp_bigstring libc_aligned ba5 (Val_long 0) ba5 (Val_long 0) (Val_long (-1)) mem_str
    = Undefined
  ∧ bigstringaf_memcmp_string libc_aligned ba5 (Val_long 0) str3 (Val_long 0) (Val_long (-1)) mem_str
    = Undefined.
Proof.
  apply (negative_length_undefined libc_aligned mem_str ba5 ba5 str3
           (Val_long 0) (Val_long 0) (Val_long (-1))).
  - apply small_allocations_mem_str.
  - by vm_compute.
  - by vm_compute.
Defined.

Lemma copy_then_compare_zero_witness :
  (∃ m' r,
      bigstringaf_blit_to_bigstring region10 (Val_long 0) region10 (Val_long 5)
        (Val_long 4) mem10 = Returns tt m'
      ∧ bigstringaf_memcmp_bigstring libc_aligned region10 (Val_long 0) region10 (Val_long 5)
          (Val_long 4) m' = Returns r m'
      ∧ Int_val r = 0)
  ∧ (∃ m' r,
      bigstringaf_blit_to_bytes ba5 (Val_long 2) out4 (Val_long 1) (Val_long 3) mem_str
        = Returns tt m'
      ∧ bigstringaf_memcmp_string libc_aligned ba5 (Val_long 2) out4 (Val_long 1) (Val_long 3) m'
        = Returns r m'
      ∧ Int_val r = 0)
  ∧ (∃ m' r,
      bigstringaf_blit_from_bytes str3 (Val_long 0) ba5 (Val_long 2) (Val_long 3) mem_str
        = Returns tt m'
      ∧ bigstringaf_memcmp_string libc_aligned ba5 (Val_long 2) str3 (Val_long 0) (Val_long 3) m'
        = Returns r m'
      ∧ Int_val r = 0).
Proof.
  destruct (copy_then_compare_zero libc_aligned) as (H1 & H2 & H3).
  split; [|split].
  - apply (H1 mem10 region10 region10 (Val_long 0) (Val_long 5) (Val_long 4));
      [by vm_compute | solve_allocated | solve_allocated | solve_no_overlap].
  - apply (H2 mem_str ba5 out4 (Val_long 2) (Val_long 1) (Val_long 3));
      [by vm_compute | solve_allocated | solve_allocated | solve_no_overlap].
  - apply (H3 mem_str str3 ba5 (Val_long 0) (Val_long 2) (Val_long 3));
      [by vm_compute | solve_allocated | solve_allocated | solve_no_overlap].
Defined.

Lemma memcmp_zero_iff_equal_witness :
  (∃ xs ys r,
      load_bytes mem_cmp (ptr_add (ba_data ba123) (Long_val (Val_long 0)))
        (Long_val (Val_long 3)) = Some xs
      ∧ load_bytes mem_cmp (ptr_add (ba_data ba124) (Long_val (Val_long 0)))
          (Long_val (Val_long 3)) = Some ys
      ∧ bigstringaf_memcmp_bigstring libc_aligned ba123 (Val_long 0) ba124 (Val_long 0)
          (Val_long 3) mem_cmp = Returns r mem_cmp
      ∧ (Int_val r = 0 ↔ xs = ys))
  ∧ (∃ xs ys r,
      load_bytes mem_str (ptr_add (ba_data ba5) (Long_val (Val_long 0)))
        (Long_val (Val_long 2)) = Some xs
      ∧ load_bytes mem_str (ptr_add (str_addr str3) (Long_val (Val_long 0)))
          (Long_val (Val_long 2)) = Some ys
      ∧ bigstringaf_memcmp_string libc_aligned ba5 (Val_long 0) str3 (Val_long 0)
          (Val_long 2) mem_str = Returns r mem_str
      ∧ (Int_val r = 0 ↔ xs = ys)).
Proof.
  split.
  - apply (proj1 (memcmp_zero_iff_equal libc_aligned) mem_cmp ba123 ba124
             (Val_long 0) (Val_long 0) (Val_long 3));
      [apply valid_ba123 | apply valid_ba124 | by vm_compute..].
  - apply (proj2 (memcmp_zero_iff_equal libc_aligned) mem_str ba5 str3
             (Val_long 0) (Val_long 0) (Val_long 2));
      [apply valid_ba5 | apply valid_str3 | by vm_compute..].
Defined.

Lemma memcmp_transitive_witness :
  (∃ rab rbc rac,
      bigstringaf_memcmp_bigstring libc_aligned ba123 (Val_long 0) ba123' (Val_long 0)
        (Val_long 3) mem_cmp = Returns rab mem_cmp
      ∧ bigstringaf_memcmp_bigstring libc_aligned ba123' (Val_long 0) ba124 (Val_long 0)
          (Val_long 3) mem_cmp = Returns rbc mem_cmp
      ∧ bigstringaf_memcmp_bigstring libc_aligned ba123 (Val_long 0) ba124 (Val_long 0)
          (Val_long 3) mem_cmp = Returns rac mem_cmp
      ∧ Int_val rab <= 0 ∧ Int_val rbc < 0 ∧ Int_val rac < 0)
  ∧ (∃ rab rbs ras,
      bigstringaf_memcmp_bigstring libc_aligned ba5 (Val_long 0) ba5 (Val_long 0)
        (Val_long 3) mem_str = Returns rab mem_str
      ∧ bigstringaf_memcmp_string libc_aligned ba5 (Val_long 0) str3 (Val_long 0)
          (Val_long 3) mem_str = Returns rbs mem_str
      ∧ bigstringaf_memcmp_string libc_aligned ba5 (Val_long 0) str3 (Val_long 0)
          (Val_long 3) mem_str = Returns ras mem_str
      ∧ Int_val rab <= 0 ∧ Int_val rbs < 0 ∧ Int_val ras < 0).
Proof.
  split.
  - destruct (proj1 (memcmp_transitive libc_aligned) mem_cmp ba123 ba123' ba124
                (Val_long 0) (Val_long 0) (Val_long 0) (Val_long 3))
      as (rab & rbc & rac & Hab & Hbc & Hac & Ht);
      [apply valid_ba123 | apply valid_ba123' | apply valid_ba124 | by vm_compute..|].
    assert (Int_val rab <= 0) as Pab.
    { pose proof Hab as E. vm_compute in E. injection E as <-. by vm_compute. }
    assert (Int_val rbc < 0) as Pbc.
    { pose proof Hbc as E. vm_compute in E. injection E as <-. by vm_compute. }
    exists rab, rbc, rac. do 5 (split; [done|]).
    apply Ht; [done | lia | by right].
  - destruct (proj2 (memcmp_transitive libc_aligned) mem_str ba5 ba5 str3
                (Val_long 0) (Val_long 0) (Val_long 0) (Val_long 3))
      as (rab & rbs & ras & Hab & Hbs & Has & Ht);
      [apply valid_ba5 | apply valid_ba5 | apply valid_str3 | by vm_compute..|].
    assert (Int_val rab <= 0) as Pab.
    { pose proof Hab as E. vm_compute in E. injection E as <-. by vm_compute. }
    assert (Int_val rbs < 0) as Pbs.
    { pose proof Hbs as E. vm_compute in E. injection E as <-. by vm_compute. }
    exists rab, rbs, ras. do 5 (split; [done|]).
    apply Ht; [done | lia | by right].
Defined.

Lemma memcmp_prefix_witness :
  (∃ r r',
      bigstringaf_memcmp_bigstring libc_aligned ba124 (Val_long 1) ba123 (Val_long 0)
        (Val_long 2) mem_cmp = Returns r mem_cmp
      ∧ bigstringaf_memcmp_bigstring libc_aligned ba124 (Val_long 1) ba123 (Val_long 0)
          (Val_long 1) mem_cmp = Returns r' mem_cmp
      ∧ Int_val r' ≠ 0 ∧ Z.sgn (Int_val r) = Z.sgn (Int_val r'))
  ∧ (∃ r r',
      bigstringaf_memcmp_bigstring libc_aligned ba123 (Val_long 0) ba123' (Val_long 0)
        (Val_long 3) mem_cmp = Returns r mem_cmp
      ∧ bigstringaf_memcmp_bigstring libc_aligned ba123 (Val_long 0) ba123' (Val_long 0)
          (Val_long 2) mem_cmp = Returns r' mem_cmp
      ∧ Int_val r = 0 ∧ Int_val r' = 0)
  ∧ (∃ r r',
      bigstringaf_memcmp_string libc_aligned ba5 (Val_long 1) str3 (Val_long 0)
        (Val_long 3) mem_str = Returns r mem_str
      ∧ bigstringaf_memcmp_string libc_aligned ba5 (Val_long 1) str3 (Val_long 0)
          (Val_long 1) mem_str = Returns r' mem_str
      ∧ Int_val r' ≠ 0 ∧ Z.sgn (Int_val r) = Z.sgn (Int_val r'))
  ∧ (∃ r r',
      bigstringaf_memcmp_string libc_aligned ba5 (Val_long 0) str3 (Val_long 0)
        (Val_long 2) mem_str = Returns r mem_str
      ∧ bigstringaf_memcmp_string libc_aligned ba5 (Val_long 0) str3 (Val_long 0)
          (Val_long 1) mem_str = Returns r' mem_str
      ∧ Int_val r = 0 ∧ Int_val r' = 0).
Proof.
  repeat apply conj.
  - destruct (proj1 (memcmp_prefix libc_aligned) mem_cmp ba124 ba123
                (Val_long 1) (Val_long 0) (Val_long 2) (Val_long 1))
      as (r & r' & Hr & Hr' & H1 & H2);
      [apply valid_ba124 | apply valid_ba123 | by vm_compute..|].
    assert (Int_val r' ≠ 0) as Hne.
    { pose proof Hr' as E. vm_compute in E. injection E as <-. by vm_compute. }
    exists r, r'. do 3 (split; [done|]). by apply H1.
  - destruct (proj1 (memcmp_prefix libc_aligned) mem_cmp ba123 ba123'
                (Val_long 0) (Val_long 0) (Val_long 3) (Val_long 2))
      as (r & r' & Hr & Hr' & H1 & H2);
      [apply valid_ba123 | apply valid_ba123' | by vm_compute..|].
    assert (Int_val r = 0) as H0.
    { pose proof Hr as E. vm_compute in E. injection E as <-. by vm_compute. }
    exists r, r'. do 3 (split; [done|]). by apply H2.
  - destruct (proj2 (memcmp_prefix libc_aligned) mem_str ba5 str3
                (Val_long 1) (Val_long 0) (Val_long 3) (Val_long 1))
      as (r & r' & Hr & Hr' & H1 & H2);
      [apply valid_ba5 | apply valid_str3 | by vm_compute..|].
    assert (Int_val r' ≠ 0) as Hne.
    { pose proof Hr' as E. vm_compute in E. injection E as <-. by vm_compute. }
    exists r, r'. do 3 (split; [done|]). by apply H1.
  - destruct (proj2 (memcmp_prefix libc_aligned) mem_str ba5 str3
                (Val_long 0) (Val_long 0) (Val_long 2) (Val_long 1))
      as (r & r' & Hr & Hr' & H1 & H2);
      [apply valid_ba5 | apply valid_str3 | by vm_compute..|].
    assert (Int_val r = 0) as H0.
    { pose proof Hr as E. vm_compute in E. injection E as <-. by vm_compute. }
    exists r, r'. do 3 (split; [done|]). by apply H2.
Defined.

Lemma compare_after_disjoint_copy_witness :
  (∃ m' r,
      bigstringaf_blit_to_bigstring region10 (Val_long 0) region10 (Val_long 5)
        (Val_long 2) mem10 = Returns tt m'
      ∧ bigstringaf_memcmp_bigstring libc_aligned region10 (Val_long 0) region10 (Val_long 2)
          (Val_long 3) mem10 = Returns r mem10
      ∧ bigstringaf_memcmp_bigstring libc_aligned region10 (Val_long 0) region10 (Val_long 2)
          (Val_long 3) m' = Returns r m')
  ∧ (∃ m' r,
      bigstringaf_blit_to_bytes ba5 (Val_long 0) out4 (Val_long 0) (Val_long 2) mem_str
        = Returns tt m'
      ∧ bigstringaf_memcmp_string libc_aligned ba5 (Val_long 0) str3 (Val_long 0) (Val_long 3) mem_str
        = Returns r mem_str
      ∧ bigstringaf_memcmp_string libc_aligned ba5 (Val_long 0) str3 (Val_long 0) (Val_long 3) m'
        = Returns r m')
  ∧ (∃ m' r,
      bigstringaf_blit_from_bytes str3 (Val_long 0) ba5 (Val_long 3) (Val_long 2) mem_str
        = Returns tt m'
      ∧ bigstringaf_memcmp_string libc_aligned ba5 (Val_long 0) str3 (Val_long 0) (Val_long 3) mem_str
        = Returns r mem_str
      ∧ bigstringaf_memcmp_string libc_aligned ba5 (Val_long 0) str3 (Val_long 0) (Val_long 3) m'
        = Returns r m').
Proof.
  destruct (compare_after_disjoint_copy libc_aligned) as (H1 & H2 & H3).
  split; [|split].
  - apply (H1 mem10 region10 region10 region10 region10
             (Val_long 0) (Val_long 5) (Val_long 2) (Val_long 0) (Val_long 2) (Val_long 3));
      [by vm_compute | by vm_compute
      | solve_allocated | solve_allocated | solve_allocated | solve_allocated
      | solve_disjoint | solve_disjoint].
  - apply (H2 mem_str ba5 out4 ba5 str3
             (Val_long 0) (Val_long 0) (Val_long 2) (Val_long 0) (Val_long 0) (Val_long 3));
      [by vm_compute | by vm_compute
      | solve_allocated | solve_allocated | solve_no_overlap
      | solve_allocated | solve_allocated
      | solve_disjoint | solve_disjoint].
  - apply (H3 mem_str str3 ba5 ba5 str3
             (Val_long 0) (Val_long 3) (Val_long 2) (Val_long 0) (Val_long 0) (Val_long 3));
      [by vm_compute | by vm_compute
      | solve_allocated | solve_allocated | solve_no_overlap
      | solve_allocated | solve_allocated
      | solve_disjoint | solve_disjoint].
Defined.
